(** * Sparta: CloudFormation resource discovery and template merging

    A shallow embedding of [cloudformation_resources.go] (package [sparta]):
    [resourceOutputs], [newCloudFormationResource],
    [discoveryResourceInfoForDependency] and [safeMergeTemplates].

    Go maps are reference values: a [gocf.Template] holds three map
    references, and two templates may share a map object.  The embedding
    therefore keeps the map objects in a store and lets the templates hold
    references into it.  A Go function is a state transformer over that
    store and the calls received by the logger; besides returning, it may
    panic (assignment to an entry of a nil map) or end the process
    (logrus's [Fatal]). *)

From Stdlib Require Import Ascii.
From stdpp Require Import gmap strings list fin_maps.

(** ** Characters that cannot be written inside a string literal *)

Definition dquote : string := String "034"%char EmptyString.
Definition newline : string := String "010"%char EmptyString.
Definition tab : string := String "009"%char EmptyString.

(** ** Go run time *)

(** How a call ends. *)
Inductive result (A : Type) : Type :=
  | Ret (a : A)
  | Panic (reason : string)
  | Exit (code : Z).
Arguments Ret {A} a.
Arguments Panic {A} reason.
Arguments Exit {A} code.

(** Go's [error]: [None] is [nil], [Some msg] an error whose [Error()] is [msg]. *)
Definition error : Type := option string.
Definition errors_New (msg : string) : error := Some msg.

(** Go's [[]byte]: [None] is the nil slice. *)
Definition bytes : Type := option string.

(** A map value is [nil] or a reference to a map object. *)
Abbreviation loc := positive (only parsing).
Definition mapref : Type := option loc.

(** The map objects of one element type. *)
Abbreviation heap V := (gmap loc (gmap string V)) (only parsing).

(** The order in which [range] visits a map is not specified by Go: any
    enumeration of the entries, each exactly once, may be observed. *)
Record RangeOrder : Type := {
  range_entries : ∀ V : Type, gmap string V → list (string * V);
  range_entries_perm :
    ∀ (V : Type) (m : gmap string V), range_entries V m ≡ₚ map_to_list m
}.

(** ** logrus *)

Inductive Level : Type := FatalLevel | ErrorLevel | WarnLevel.

(** One call received by the logger: level, structured fields, message. *)
Record Entry : Type := {
  entry_level : Level;
  entry_fields : list (string * string);
  entry_message : string
}.

(** ** go-cloudformation resource properties *)

Record DynamoDBStreamSpecification : Type := { StreamViewType : string }.

(** The dynamic type of a [gocf.ResourceProperties] interface value.  The
    seven struct types named by the type switch of [resourceOutputs] have a
    constructor each; [OtherResource] is any other dynamic type, with the
    name [%T] prints for it and the name its [CfnResourceType] returns. *)
Inductive ResourceProperties : Type :=
  | IAMRole
  | DynamoDBTable (StreamSpecification : option DynamoDBStreamSpecification)
  | KinesisStream
  | Route53RecordSet
  | S3Bucket
  | SNSTopic
  | SQSQueue
  | OtherResource (goType cfnType : string).

Definition CfnResourceType (p : ResourceProperties) : string :=
  match p with
  | IAMRole => "AWS::IAM::Role"
  | DynamoDBTable _ => "AWS::DynamoDB::Table"
  | KinesisStream => "AWS::Kinesis::Stream"
  | Route53RecordSet => "AWS::Route53::RecordSet"
  | S3Bucket => "AWS::S3::Bucket"
  | SNSTopic => "AWS::SNS::Topic"
  | SQSQueue => "AWS::SQS::Queue"
  | OtherResource _ cfnType => cfnType
  end.

Record Resource : Type := {
  Properties : ResourceProperties;
  DependsOn : option (list string)
}.

(** [gocf.Template], restricted to the three collections the package merges. *)
Record Template : Type := {
  Resources : mapref;
  Mappings : mapref;
  Outputs : mapref
}.

(** ** Map objects *)

Section MapObjects.
Context {V : Type}.

(** The content read through a reference; a nil map reads as empty. *)
Definition deref (h : heap V) (r : mapref) : gmap string V :=
  match r with
  | None => ∅
  | Some l => default ∅ (h !! l)
  end.

(** [m[k] = v]: panics on a nil map. *)
Definition assign (h : heap V) (r : mapref) (k : string) (v : V)
  : result unit * heap V :=
  match r with
  | None => (Panic "assignment to entry in nil map", h)
  | Some l => (Ret tt, <[l := <[k := v]> (deref h r)]> h)
  end.

(** One of the three loops of [safeMergeTemplates]: [entries] are the
    entries of the source map in the order [range] yields them,
    [describe] formats the message of a collision. *)
Fixpoint mergeEach (describe : string → string) (dest : mapref)
    (entries : list (string * V)) (h : heap V) (mergeErrors : list string)
  : result (list string) * heap V :=
  match entries with
  | [] => (Ret mergeErrors, h)
  | (eachKey, eachValue) :: rest =>
      match deref h dest !! eachKey with
      | Some _ =>
          let errorMsg := describe eachKey in
          mergeEach describe dest rest h (mergeErrors ++ [errorMsg])
      | None =>
          match assign h dest eachKey eachValue with
          | (Ret _, h') => mergeEach describe dest rest h' mergeErrors
          | (Panic reason, h') => (Panic reason, h')
          | (Exit code, h') => (Exit code, h')
          end
      end
  end.
End MapObjects.

(** ** text/template, as far as the package uses it

    The package parses one fixed pattern whose actions are all field
    references ([<< .Field >>]) and executes it on a struct of strings.  A
    field action writes the field's text unchanged; everything outside the
    delimiters is copied. *)

Inductive Node : Type :=
  | TextNode (text : string)
  | FieldNode (name : string).

Definition isSpace (c : ascii) : bool :=
  bool_decide (c = " "%char) || bool_decide (c = "009"%char)
  || bool_decide (c = "010"%char) || bool_decide (c = "013"%char).

Fixpoint trimLeft (s : string) : string :=
  match s with
  | String c rest => if isSpace c then trimLeft rest else s
  | EmptyString => EmptyString
  end.

Definition trimSpace (s : string) : string :=
  String.rev (trimLeft (String.rev (trimLeft s))).

(** The node of the action whose text between the delimiters is [body]. *)
Definition parseAction (body : string) : string + Node :=
  match trimSpace body with
  | String "."%char name =>
      if bool_decide (name = EmptyString) then inl "unsupported action"
      else inr (FieldNode name)
  | _ => inl "unsupported action"
  end.

Definition flushText (acc : string) (nodes : list Node) : list Node :=
  if bool_decide (acc = EmptyString) then nodes
  else nodes ++ [TextNode (String.rev acc)].

(** [Delims(l1 l2, r1 r2)] followed by [Parse]: [acc] is the text or action
    body read so far, last character first. *)
Fixpoint parseFrom (l1 l2 r1 r2 : ascii) (inAction : bool) (acc : string)
    (nodes : list Node) (s : string) : string + list Node :=
  match s with
  | EmptyString =>
      if inAction then inl "unclosed action" else inr (flushText acc nodes)
  | String c EmptyString =>
      if inAction then inl "unclosed action"
      else inr (flushText (String c acc) nodes)
  | String c ((String d rest) as tail) =>
      if inAction then
        if bool_decide (c = r1) && bool_decide (d = r2) then
          match parseAction (String.rev acc) with
          | inl e => inl e
          | inr n => parseFrom l1 l2 r1 r2 false EmptyString (nodes ++ [n]) rest
          end
        else parseFrom l1 l2 r1 r2 true (String c acc) nodes tail
      else
        if bool_decide (c = l1) && bool_decide (d = l2) then
          parseFrom l1 l2 r1 r2 true EmptyString (flushText acc nodes) rest
        else parseFrom l1 l2 r1 r2 false (String c acc) nodes tail
  end.

Definition template_Parse (leftDelim rightDelim : string) (text : string)
  : string + list Node :=
  match leftDelim, rightDelim with
  | String l1 (String l2 EmptyString), String r1 (String r2 EmptyString) =>
      parseFrom l1 l2 r1 r2 false EmptyString [] text
  | _, _ => inl "unsupported delimiters"
  end.

(** [Execute] on data given as the list of its exported fields. *)
Fixpoint template_Execute (nodes : list Node) (data : list (string * string))
    (buffer : string) : string * error :=
  match nodes with
  | [] => (buffer, None)
  | TextNode text :: rest => template_Execute rest data (buffer +:+ text)
  | FieldNode name :: rest =>
      match list_to_map (M := gmap string string) data !! name with
      | Some value => template_Execute rest data (buffer +:+ value)
      | None => (buffer, Some ("can't evaluate field " +:+ name))
      end
  end.

(** ** The package *)

Section Sparta.
(** [gocf.Mapping] and [gocf.Output] are opaque to the package. *)
Context {Mapping Output : Type}.

(** The map objects of the three element types, and the calls the logger
    has received, oldest first. *)
Record State : Type := {
  resourceMaps : heap Resource;
  mappingMaps : heap Mapping;
  outputMaps : heap Output;
  logged : list Entry
}.

(** A Go function with result type [A]. *)
Definition Go (A : Type) : Type := State → result A * State.

Definition go_ret {A : Type} (a : A) : Go A := λ σ, (Ret a, σ).

Definition go_bind {A B : Type} (m : Go A) (k : A → Go B) : Go B :=
  λ σ,
    match m σ with
    | (Ret a, σ') => k a σ'
    | (Panic reason, σ') => (Panic reason, σ')
    | (Exit code, σ') => (Exit code, σ')
    end.

#[global] Instance Go_ret : MRet Go := @go_ret.
#[global] Instance Go_bind : MBind Go := λ A B k m, go_bind m k.

Definition gets {A : Type} (f : State → A) : Go A := λ σ, (Ret (f σ), σ).

(** Running a loop over the map objects of one element type. *)
Definition onResources {A : Type}
    (f : heap Resource → result A * heap Resource) : Go A :=
  λ σ, let (r, h) := f (resourceMaps σ) in
       (r, {| resourceMaps := h; mappingMaps := mappingMaps σ;
              outputMaps := outputMaps σ; logged := logged σ |}).

Definition onMappings {A : Type}
    (f : heap Mapping → result A * heap Mapping) : Go A :=
  λ σ, let (r, h) := f (mappingMaps σ) in
       (r, {| resourceMaps := resourceMaps σ; mappingMaps := h;
              outputMaps := outputMaps σ; logged := logged σ |}).

Definition onOutputs {A : Type}
    (f : heap Output → result A * heap Output) : Go A :=
  λ σ, let (r, h) := f (outputMaps σ) in
       (r, {| resourceMaps := resourceMaps σ; mappingMaps := mappingMaps σ;
              outputMaps := h; logged := logged σ |}).

(** The logger receives one more call. *)
Definition log (lvl : Level) (fields : list (string * string))
    (msg : string) : Go unit :=
  λ σ, (Ret tt,
        {| resourceMaps := resourceMaps σ; mappingMaps := mappingMaps σ;
           outputMaps := outputMaps σ;
           logged := logged σ ++ [ {| entry_level := lvl;
                                      entry_fields := fields;
                                      entry_message := msg |} ] |}).

Definition os_Exit {A : Type} (code : Z) : Go A := λ σ, (Exit code, σ).

Definition logger_Error (msg : string) : Go unit := log ErrorLevel [] msg.

Definition logger_WithFields_Warn (fields : list (string * string))
    (msg : string) : Go unit := log WarnLevel fields msg.

(** logrus: [Fatal] writes the entry and then calls [os.Exit(1)]. *)
Definition logger_WithFields_Fatal (fields : list (string * string))
    (msg : string) : Go unit :=
  log FatalLevel fields msg ;; os_Exit 1.

Fixpoint forEach {A : Type} (l : list A) (body : A → Go unit) : Go unit :=
  match l with
  | [] => go_ret tt
  | x :: rest => body x ;; forEach rest body
  end.

(** *** resourceOutputs *)

Definition resourceOutputs (resourceName : string)
    (resource : ResourceProperties) : Go (list string * error) :=
  let outputProps : list string := [] in
  outputProps ←
    match resource with
    | IAMRole => go_ret outputProps
    | DynamoDBTable StreamSpecification =>
        match StreamSpecification with
        | Some _ => go_ret (outputProps ++ ["StreamArn"])
        | None => go_ret outputProps
        end
    | KinesisStream => go_ret (outputProps ++ ["Arn"])
    | Route53RecordSet => go_ret outputProps
    | S3Bucket => go_ret (outputProps ++ ["DomainName"; "WebsiteURL"])
    | SNSTopic => go_ret (outputProps ++ ["TopicName"])
    | SQSQueue => go_ret (outputProps ++ ["Arn"; "QueueName"])
    | OtherResource goType _ =>
        logger_WithFields_Warn [("ResourceType", goType)]
          "Discovery information for dependency not yet implemented" ;;
        go_ret outputProps
    end;
  go_ret (outputProps, None).

(** *** newCloudFormationResource *)

(** [gocf.NewResourceByType]: the registry of resource types, [None]
    being the nil interface value it returns for an unknown name. *)
Context (NewResourceByType : string → option ResourceProperties).

Definition newCloudFormationResource (resourceType : string)
  : Go (option ResourceProperties * error) :=
  let resProps := NewResourceByType resourceType in
  match resProps with
  | None =>
      logger_WithFields_Fatal [("Type", resourceType)]
        "Failed to create CloudFormation CustomResource!" ;;
      go_ret (None, Some ("Unsupported CustomResourceType: " +:+ resourceType))
  | Some _ => go_ret (resProps, None)
  end.

(** *** discoveryResourceInfoForDependency *)

Record discoveryDataTemplate : Type := {
  ResourceID : string;
  ResourceType : string;
  ResourceProperties_ : string
}.

(** The exported fields [Execute] can reach. *)
Definition discoveryDataTemplate_fields (d : discoveryDataTemplate)
  : list (string * string) :=
  [("ResourceID", ResourceID d); ("ResourceType", ResourceType d);
   ("ResourceProperties", ResourceProperties_ d)].

Definition discoveryDataForResourceDependency : string :=
  newline +:+
  tab +:+ "{" +:+ newline +:+
  tab +:+ tab +:+ dquote +:+ "ResourceID" +:+ dquote +:+ " : " +:+ dquote
    +:+ "<< .ResourceID >>" +:+ dquote +:+ "," +:+ newline +:+
  tab +:+ tab +:+ dquote +:+ "ResourceRef" +:+ dquote +:+ " : " +:+ dquote
    +:+ "{" +:+ dquote +:+ "Ref" +:+ dquote +:+ ":" +:+ dquote
    +:+ "<< .ResourceID >>" +:+ dquote +:+ "}" +:+ dquote +:+ "," +:+ newline +:+
  tab +:+ tab +:+ dquote +:+ "ResourceType" +:+ dquote +:+ " : " +:+ dquote
    +:+ "<< .ResourceType >>" +:+ dquote +:+ "," +:+ newline +:+
  tab +:+ tab +:+ dquote +:+ "Properties" +:+ dquote +:+ " : {" +:+ newline +:+
  tab +:+ tab +:+ tab +:+ "<< .ResourceProperties >>" +:+ newline +:+
  tab +:+ tab +:+ "}" +:+ newline +:+
  tab +:+ "}" +:+ newline.

(** [fmt.Sprintf] on the pattern of one attribute:
    ["%s" :"{ "Fn::GetAtt" : [ "%s", "%s" ] }"]. *)
Definition quotedAttr (eachOutput logicalResourceName : string) : string :=
  dquote +:+ eachOutput +:+ dquote +:+ " :" +:+ dquote +:+ "{ " +:+ dquote
    +:+ "Fn::GetAtt" +:+ dquote +:+ " : [ " +:+ dquote +:+ logicalResourceName
    +:+ dquote +:+ ", " +:+ dquote +:+ eachOutput +:+ dquote +:+ " ] }" +:+ dquote.

Fixpoint strings_Join (elems : list string) (sep : string) : string :=
  match elems with
  | [] => EmptyString
  | [e] => e
  | e :: rest => e +:+ sep +:+ strings_Join rest sep
  end.

Definition discoveryResourceInfoForDependency (cfTemplate : Template)
    (logicalResourceName : string) : Go (bytes * error) :=
  resources ← gets (λ σ, deref (resourceMaps σ) (Resources cfTemplate));
  match resources !! logicalResourceName with
  | None => go_ret (None, None)
  | Some item =>
      '(resourceOutputs, resourceOutputsErr) ←
        resourceOutputs logicalResourceName (Properties item);
      match resourceOutputsErr with
      | Some e => go_ret (None, resourceOutputsErr)
      | None =>
          let quotedAttrs :=
            (λ eachOutput, quotedAttr eachOutput logicalResourceName)
              <$> resourceOutputs in
          let templateData :=
            {| ResourceID := logicalResourceName;
               ResourceType := CfnResourceType (Properties item);
               ResourceProperties_ := strings_Join quotedAttrs "," |} in
          match template_Parse "<<" ">>" discoveryDataForResourceDependency with
          | inl discoveryTemplateErr =>
              go_ret (None, Some discoveryTemplateErr)
          | inr discoveryTemplate =>
              let (templateResults, evalResultErr) :=
                template_Execute discoveryTemplate
                  (discoveryDataTemplate_fields templateData) EmptyString in
              go_ret (Some templateResults, evalResultErr)
          end
      end
  end.

(** *** safeMergeTemplates *)

Definition safeMergeTemplates (order : RangeOrder)
    (sourceTemplate destTemplate : Template) : Go error :=
  let mergeErrors : list string := [] in
  mergeErrors ←
    onResources (λ h,
      mergeEach (λ eachKey, "Duplicate CloudFormation resource name: " +:+ eachKey)
        (Resources destTemplate)
        (range_entries order _ (deref h (Resources sourceTemplate)))
        h mergeErrors);
  mergeErrors ←
    onMappings (λ h,
      mergeEach (λ eachKey, "Duplicate CloudFormation Mapping name: " +:+ eachKey)
        (Mappings destTemplate)
        (range_entries order _ (deref h (Mappings sourceTemplate)))
        h mergeErrors);
  mergeErrors ←
    onOutputs (λ h,
      mergeEach (λ eachKey, "Duplicate CloudFormation output key name: " +:+ eachKey)
        (Outputs destTemplate)
        (range_entries order _ (deref h (Outputs sourceTemplate)))
        h mergeErrors);
  if bool_decide (0 < length mergeErrors) then
    logger_Error "Failed to update template. The following collisions were found:" ;;
    forEach mergeErrors (λ eachError, logger_Error (tab +:+ eachError)) ;;
    go_ret (errors_New "Template merge failed")
  else go_ret None.
End Sparta.

(** ** The mutation helpers *)

(** [safeAppendDependency] works on the resource its pointer argument
    designates; the resource after the call is returned.  [DependsOn] is a
    slice, [None] being nil. *)
Definition safeAppendDependency (resource : Resource)
    (dependencyName : string) : Resource :=
  let resource :=
    match DependsOn resource with
    | None => {| Properties := Properties resource; DependsOn := Some [] |}
    | Some _ => resource
    end in
  {| Properties := Properties resource;
     DependsOn :=
       match DependsOn resource with
       | None => Some [dependencyName]
       | Some dependencies => Some (dependencies ++ [dependencyName])
       end |}.

Section Metadata.
(** The values of a [Metadata] map are [interface{}]. *)
Context {V : Type}.

(** [make(map[string]V)]: a new, empty map object, at a location that holds
    no map object yet. *)
Definition make (h : heap V) : mapref * heap V :=
  let l := fresh (dom h) in (Some l, <[l := ∅]> h).

(** [safeMetadataInsert] reads and writes one field of the resource,
    [Metadata], a map reference: the field is passed in, and its value
    after the call is returned beside the map objects. *)
Definition safeMetadataInsert (Metadata : mapref) (key : string) (value : V)
    (h : heap V) : result mapref * heap V :=
  let '(Metadata, h) :=
    match Metadata with
    | None => make h
    | Some _ => (Metadata, h)
    end in
  match assign h Metadata key value with
  | (Ret _, h') => (Ret Metadata, h')
  | (Panic reason, h') => (Panic reason, h')
  | (Exit code, h') => (Exit code, h')
  end.
End Metadata.

(** ** Vocabulary of the statements *)

(** The collections of a template, read through the store. *)
Definition resourcesOf {Mapping Output : Type}
    (σ : @State Mapping Output) (t : Template) : gmap string Resource :=
  deref (resourceMaps σ) (Resources t).

Definition mappingsOf {Mapping Output : Type}
    (σ : @State Mapping Output) (t : Template) : gmap string Mapping :=
  deref (mappingMaps σ) (Mappings t).

Definition outputsOf {Mapping Output : Type}
    (σ : @State Mapping Output) (t : Template) : gmap string Output :=
  deref (outputMaps σ) (Outputs t).

(** The three collections of a template are map objects, none is nil. *)
Definition allocated (t : Template) : Prop :=
  is_Some (Resources t) ∧ is_Some (Mappings t) ∧ is_Some (Outputs t).

(** The keys of [entries], in order, that [dst] already has. *)
Definition collidingKeys {V : Type} (entries : list (string * V))
    (dst : gmap string V) : list string :=
  filter (λ k, is_Some (dst !! k)) entries.*1.

Definition resourceCollision (k : string) : string :=
  "Duplicate CloudFormation resource name: " +:+ k.
Definition mappingCollision (k : string) : string :=
  "Duplicate CloudFormation Mapping name: " +:+ k.
Definition outputCollision (k : string) : string :=
  "Duplicate CloudFormation output key name: " +:+ k.

Definition errorEntry (msg : string) : Entry :=
  {| entry_level := ErrorLevel; entry_fields := []; entry_message := msg |}.

(** What the logger receives for a non-empty list of collisions. *)
Definition collisionReport (mergeErrors : list string) : list Entry :=
  errorEntry "Failed to update template. The following collisions were found:"
  :: ((λ eachError, errorEntry (tab +:+ eachError)) <$> mergeErrors).

(** The messages of all collisions of a merge, as the three loops find them. *)
Definition collisionsOf {Mapping Output : Type} (order : RangeOrder)
    (σ : @State Mapping Output) (src dst : Template) : list string :=
  (resourceCollision <$>
     collidingKeys (range_entries order _ (resourcesOf σ src)) (resourcesOf σ dst))
  ++ (mappingCollision <$>
     collidingKeys (range_entries order _ (mappingsOf σ src)) (mappingsOf σ dst))
  ++ (outputCollision <$>
     collidingKeys (range_entries order _ (outputsOf σ src)) (outputsOf σ dst)).

(** The state whose map objects are the given ones and whose logger has
    received [entries] more. *)
Definition withMaps {Mapping Output : Type} (σ : @State Mapping Output)
    (hR : heap Resource) (hM : heap Mapping) (hO : heap Output)
    (entries : list Entry) : @State Mapping Output :=
  {| resourceMaps := hR; mappingMaps := hM; outputMaps := hO;
     logged := logged σ ++ entries |}.

(** The discovery document for a resource and its attributes, as text. *)
Definition discoveryDocument (logicalName kindName : string)
    (attrs : list string) : string :=
  newline +:+
  tab +:+ "{" +:+ newline +:+
  tab +:+ tab +:+ dquote +:+ "ResourceID" +:+ dquote +:+ " : "
    +:+ dquote +:+ logicalName +:+ dquote +:+ "," +:+ newline +:+
  tab +:+ tab +:+ dquote +:+ "ResourceRef" +:+ dquote +:+ " : "
    +:+ dquote +:+ "{" +:+ dquote +:+ "Ref" +:+ dquote +:+ ":" +:+ dquote
    +:+ logicalName +:+ dquote +:+ "}" +:+ dquote +:+ "," +:+ newline +:+
  tab +:+ tab +:+ dquote +:+ "ResourceType" +:+ dquote +:+ " : "
    +:+ dquote +:+ kindName +:+ dquote +:+ "," +:+ newline +:+
  tab +:+ tab +:+ dquote +:+ "Properties" +:+ dquote +:+ " : {" +:+ newline +:+
  tab +:+ tab +:+ tab +:+
    strings_Join ((λ attr, quotedAttr attr logicalName) <$> attrs) ","
    +:+ newline +:+
  tab +:+ tab +:+ "}" +:+ newline +:+
  tab +:+ "}" +:+ newline.



(** What the logger receives when the factory does not know a type. *)
Definition unsupportedEntry (resourceType : string) : Entry :=
  {| entry_level := FatalLevel;
     entry_fields := [("Type", resourceType)];
     entry_message := "Failed to create CloudFormation CustomResource!" |}.

(** What the logger receives for a resource of a type the resolver does
    not know. *)
Definition unknownKindEntry (goType : string) : Entry :=
  {| entry_level := WarnLevel;
     entry_fields := [("ResourceType", goType)];
     entry_message := "Discovery information for dependency not yet implemented" |}.

(** ** Fixtures *)

(** Two enumeration orders: the one of [map_to_list], and its reverse. *)
Definition ascending : RangeOrder :=
  {| range_entries := λ V m, map_to_list m;
     range_entries_perm := λ V m, reflexivity (map_to_list m) |}.

Definition descending : RangeOrder :=
  {| range_entries := λ V m, reverse (map_to_list m);
     range_entries_perm := λ V m, reverse_Permutation (map_to_list m) |}.

Definition queue : Resource := {| Properties := SQSQueue; DependsOn := None |}.
Definition bucket : Resource := {| Properties := S3Bucket; DependsOn := None |}.
Definition topic : Resource := {| Properties := SNSTopic; DependsOn := None |}.

(** A store with two templates: [fragment] declares resources ["A"] and
    ["B"] and output ["Url"]; [stack] declares resource ["A"], mapping
    ["Regions"] and output ["Url"]. *)
Definition twoTemplates : @State string string :=
  {| resourceMaps :=
       {[ 1%positive := {[ "A" := queue; "B" := bucket ]};
          2%positive := {[ "A" := topic ]} ]};
     mappingMaps := {[ 1%positive := ∅; 2%positive := {[ "Regions" := "m" ]} ]};
     outputMaps :=
       {[ 1%positive := {[ "Url" := "fragment" ]};
          2%positive := {[ "Url" := "stack" ]} ]};
     logged := [] |}.

Definition fragment : Template :=
  {| Resources := Some 1%positive; Mappings := Some 1%positive;
     Outputs := Some 1%positive |}.

Definition stack : Template :=
  {| Resources := Some 2%positive; Mappings := Some 2%positive;
     Outputs := Some 2%positive |}.

(** The zero value of [gocf.Template]: its three maps are nil. *)
Definition zeroTemplate : Template :=
  {| Resources := None; Mappings := None; Outputs := None |}.

(** A store with two templates whose keys are disjoint. *)
Definition disjointTemplates : @State string string :=
  {| resourceMaps :=
       {[ 1%positive := {[ "B" := bucket ]}; 2%positive := {[ "A" := topic ]} ]};
     mappingMaps := {[ 1%positive := ∅; 2%positive := {[ "Regions" := "m" ]} ]};
     outputMaps :=
       {[ 1%positive := {[ "Url" := "fragment" ]}; 2%positive := ∅ ]};
     logged := [] |}.

(** A store holding one template with the queue ["MyQueue"]. *)
Definition queueStore : @State string string :=
  {| resourceMaps := {[ 1%positive := {[ "MyQueue" := queue ]} ]};
     mappingMaps := ∅; outputMaps := ∅; logged := [] |}.

(** A registry that knows the seven kinds of [resourceOutputs]. *)
Definition builtinRegistry (resourceType : string) : option ResourceProperties :=
  if bool_decide (resourceType = "AWS::IAM::Role") then Some IAMRole
  else if bool_decide (resourceType = "AWS::DynamoDB::Table") then Some (DynamoDBTable None)
  else if bool_decide (resourceType = "AWS::Kinesis::Stream") then Some KinesisStream
  else if bool_decide (resourceType = "AWS::Route53::RecordSet") then Some Route53RecordSet
  else if bool_decide (resourceType = "AWS::S3::Bucket") then Some S3Bucket
  else if bool_decide (resourceType = "AWS::SNS::Topic") then Some SNSTopic
  else if bool_decide (resourceType = "AWS::SQS::Queue") then Some SQSQueue
  else None.

(** ** One merge loop *)

Section MergeEach.
Context {V : Type}.
Implicit Types (h : heap V) (dest : mapref) (entries : list (string * V)).
Implicit Types (describe : string → string) (errs : list string).

Lemma deref_assign_same h l k v :
  deref (<[l := <[k := v]> (deref h (Some l))]> h) (Some l)
  = <[k := v]> (deref h (Some l)).
Proof. simpl. by rewrite lookup_insert_eq. Qed.

Lemma deref_assign_other h l (m : gmap string V) r :
  r ≠ Some l → deref (<[l := m]> h) r = deref h r.
Proof.
  intros Hne. destruct r as [l'|]; [|done].
  simpl. rewrite lookup_insert_ne; [done|]. congruence.
Qed.

(** A loop writes to no map object but its destination. *)
Lemma mergeEach_frame describe dest entries h errs r :
  r ≠ dest →
  deref (mergeEach describe dest entries h errs).2 r = deref h r.
Proof.
  intros Hne. revert h errs.
  induction entries as [|[k v] rest IH]; intros h errs; [done|].
  cbn [mergeEach].
  destruct (deref h dest !! k) as [x|] eqn:Hk; [apply IH|].
  destruct dest as [l|]; cbn [assign]; [|done].
  rewrite IH. by apply deref_assign_other.
Qed.

(** An entry the destination has is never written again. *)
Lemma mergeEach_keeps describe dest entries h errs k x :
  deref h dest !! k = Some x →
  deref (mergeEach describe dest entries h errs).2 dest !! k = Some x.
Proof.
  revert h errs.
  induction entries as [|[k' v] rest IH]; intros h errs Hx; [done|].
  cbn [mergeEach].
  destruct (deref h dest !! k') as [y|] eqn:Hk; [by apply IH|].
  destruct dest as [l|]; cbn [assign]; [|done].
  apply IH. rewrite deref_assign_same.
  rewrite lookup_insert_ne; [done|]. intros ->. congruence.
Qed.

(** When the destination has every key, the loop only collects messages. *)
Lemma mergeEach_present describe dest entries h errs :
  (∀ k, k ∈ entries.*1 → is_Some (deref h dest !! k)) →
  mergeEach describe dest entries h errs
  = (Ret (errs ++ (describe <$> entries.*1)), h).
Proof.
  revert errs.
  induction entries as [|[k v] rest IH]; intros errs Hall.
  - simpl. by rewrite app_nil_r.
  - cbn [mergeEach]. rewrite fmap_cons in Hall |- *. cbn [fst] in *.
    destruct (Hall k) as [x Hx]; [apply list_elem_of_here|].
    rewrite Hx, IH; [by rewrite <- app_assoc|].
    intros k' Hk'. apply Hall. by apply list_elem_of_further.
Qed.

(** A nil destination: the first entry makes the loop panic. *)
Lemma mergeEach_nil describe entries h errs :
  mergeEach describe None entries h errs
  = match entries with
    | [] => (Ret errs, h)
    | _ :: _ => (Panic "assignment to entry in nil map", h)
    end.
Proof.
  destruct entries as [|[k v] rest]; [done|].
  cbn [mergeEach deref]. by rewrite lookup_empty.
Qed.

Lemma collidingKeys_insert_fresh (rest : list (string * V)) (m : gmap string V) k v :
  k ∉ rest.*1 →
  collidingKeys rest (<[k := v]> m) = collidingKeys rest m.
Proof.
  unfold collidingKeys.
  induction rest as [|[k' v'] rest IH]; intros Hk; [done|].
  cbn [fmap list_fmap fst] in *.
  apply not_elem_of_cons in Hk as [Hne Hk].
  rewrite !filter_cons, lookup_insert_ne, IH by done. done.
Qed.

(** A destination that is a map object: the loop returns, having added
    the entries the destination lacked and collected a message for each
    key it had. *)
Lemma union_insert_present (m1 m2 : gmap string V) k x v :
  m1 !! k = Some x → m1 ∪ <[k := v]> m2 = m1 ∪ m2.
Proof.
  intros Hx. apply map_eq. intros k'. rewrite !lookup_union.
  destruct (decide (k = k')) as [<-|Hne].
  - rewrite Hx, lookup_insert_eq. by destruct (m2 !! k).
  - by rewrite lookup_insert_ne.
Qed.

Lemma mergeEach_alloc describe l entries h errs :
  NoDup entries.*1 →
  ∃ h',
    mergeEach describe (Some l) entries h errs
    = (Ret (errs ++ (describe <$> collidingKeys entries (deref h (Some l)))), h')
    ∧ deref h' (Some l) = deref h (Some l) ∪ list_to_map entries.
Proof.
  revert h errs.
  induction entries as [|[k v] rest IH]; intros h errs Hnd.
  - exists h. split; [by rewrite app_nil_r|].
    cbn [list_to_map foldr]. by rewrite (right_id_L ∅ (∪)).
  - rewrite fmap_cons in Hnd. apply NoDup_cons in Hnd as [Hk Hnd].
    cbn [mergeEach]. rewrite list_to_map_cons.
    unfold collidingKeys at 1. rewrite fmap_cons, filter_cons. cbn [fst].
    destruct (deref h (Some l) !! k) as [x|] eqn:Hx.
    + destruct (IH h (errs ++ [describe k]) Hnd) as (h' & Hrun & Hmap).
      exists h'. split.
      * rewrite Hrun, decide_True by done.
        by rewrite fmap_cons, <- app_assoc.
      * rewrite Hmap. symmetry. by eapply union_insert_present.
    + cbn [assign].
      destruct (IH (<[l := <[k := v]> (deref h (Some l))]> h) errs Hnd)
        as (h' & Hrun & Hmap).
      exists h'. split.
      * rewrite Hrun, deref_assign_same, collidingKeys_insert_fresh by done.
        rewrite decide_False; [done|]. by intros [? ?].
      * rewrite Hmap, deref_assign_same.
        by rewrite <- insert_union_r, insert_union_l.
Qed.
End MergeEach.

(** ** The enumeration of a map by [range] *)

Section Range.
Context {V : Type} (order : RangeOrder).
Implicit Types (m : gmap string V).

Lemma range_NoDup m : NoDup (range_entries order V m).*1.
Proof.
  rewrite (range_entries_perm order V m). apply NoDup_fst_map_to_list.
Qed.

Lemma range_list_to_map m : list_to_map (range_entries order V m) = m.
Proof.
  rewrite <- (list_to_map_to_list m) at 2.
  apply list_to_map_proper; [apply range_NoDup|apply range_entries_perm].
Qed.

Lemma range_key m k : k ∈ (range_entries order V m).*1 ↔ is_Some (m !! k).
Proof.
  rewrite (range_entries_perm order V m), list_elem_of_fmap. split.
  - intros ([k' v] & -> & Hin). apply elem_of_map_to_list in Hin. by exists v.
  - intros [v Hv]. exists (k, v). split; [done|]. by apply elem_of_map_to_list.
Qed.

(** Every key both maps have is among the colliding keys, and only those. *)
Lemma collidingKeys_range m dst k :
  k ∈ collidingKeys (range_entries order V m) dst
  ↔ is_Some (m !! k) ∧ is_Some (dst !! k).
Proof.
  unfold collidingKeys. rewrite list_elem_of_filter, range_key. tauto.
Qed.

Lemma collidingKeys_nil m dst :
  collidingKeys (range_entries order V m) dst = [] ↔ dom m ## dom dst.
Proof.
  split.
  - intros Hnil k Hm Hd. apply elem_of_dom in Hm, Hd.
    assert (k ∈ collidingKeys (range_entries order V m) dst) as Hin
      by by apply collidingKeys_range.
    rewrite Hnil in Hin. by apply elem_of_nil in Hin.
  - intros Hdisj.
    destruct (collidingKeys (range_entries order V m) dst) as [|k ks] eqn:Hks;
      [done|].
    assert (k ∈ collidingKeys (range_entries order V m) dst) as Hin
      by (rewrite Hks; apply list_elem_of_here).
    apply collidingKeys_range in Hin as [Hm Hd].
    apply elem_of_dom in Hm, Hd. by destruct (Hdisj k).
Qed.

(** A loop leaves the map it ranges over as it was, whatever its
    destination is and however it ends. *)
Lemma mergeEach_source_stable describe src dest (h : heap V) errs :
  deref
    (mergeEach describe dest (range_entries order V (deref h src)) h errs).2
    src
  = deref h src.
Proof.
  destruct (decide (src = dest)) as [->|Hne].
  - rewrite mergeEach_present; [done|]. intros k Hk. by apply range_key.
  - by apply mergeEach_frame.
Qed.
End Range.

(** ** The merger as a whole *)

Section Merge.
Context {Mapping Output : Type}.
Implicit Types (σ : @State Mapping Output) (src dst : Template).
Implicit Types (order : RangeOrder).

Lemma forEach_logger_Error (mergeErrors : list string) σ :
  forEach mergeErrors (λ eachError, logger_Error (tab +:+ eachError)) σ
  = (Ret tt,
     withMaps σ (resourceMaps σ) (mappingMaps σ) (outputMaps σ)
       ((λ eachError, errorEntry (tab +:+ eachError)) <$> mergeErrors)).
Proof.
  revert σ. induction mergeErrors as [|e rest IH]; intros σ.
  - unfold withMaps. cbn. rewrite app_nil_r. by destruct σ.
  - cbn [forEach]. unfold mbind, Go_bind, go_bind, logger_Error, log.
    rewrite IH. unfold withMaps. cbn. by rewrite <- app_assoc.
Qed.

(** The three loops, then the report. *)
Lemma safeMergeTemplates_run order src dst σ :
  safeMergeTemplates order src dst σ =
  match mergeEach resourceCollision (Resources dst)
          (range_entries order _ (resourcesOf σ src)) (resourceMaps σ) [] with
  | (Ret e1, hR) =>
      match mergeEach mappingCollision (Mappings dst)
              (range_entries order _ (mappingsOf σ src)) (mappingMaps σ) e1 with
      | (Ret e2, hM) =>
          match mergeEach outputCollision (Outputs dst)
                  (range_entries order _ (outputsOf σ src)) (outputMaps σ) e2 with
          | (Ret e3, hO) =>
              match e3 with
              | [] => (Ret None, withMaps σ hR hM hO [])
              | _ :: _ =>
                  (Ret (Some "Template merge failed"),
                   withMaps σ hR hM hO (collisionReport e3))
              end
          | (Panic reason, hO) => (Panic reason, withMaps σ hR hM hO [])
          | (Exit code, hO) => (Exit code, withMaps σ hR hM hO [])
          end
      | (Panic reason, hM) =>
          (Panic reason, withMaps σ hR hM (outputMaps σ) [])
      | (Exit code, hM) => (Exit code, withMaps σ hR hM (outputMaps σ) [])
      end
  | (Panic reason, hR) =>
      (Panic reason, withMaps σ hR (mappingMaps σ) (outputMaps σ) [])
  | (Exit code, hR) =>
      (Exit code, withMaps σ hR (mappingMaps σ) (outputMaps σ) [])
  end.
Proof.
  unfold safeMergeTemplates, mbind, Go_bind, go_bind, onResources,
    onMappings, onOutputs, resourcesOf, mappingsOf, outputsOf, withMaps.
  change (λ eachKey, "Duplicate CloudFormation resource name: " +:+ eachKey)
    with resourceCollision.
  change (λ eachKey, "Duplicate CloudFormation Mapping name: " +:+ eachKey)
    with mappingCollision.
  change (λ eachKey, "Duplicate CloudFormation output key name: " +:+ eachKey)
    with outputCollision.
  destruct (mergeEach resourceCollision _ _ _ _) as [[e1| |] hR];
    cbn [resourceMaps mappingMaps outputMaps logged];
    rewrite ?app_nil_r; [|done..].
  destruct (mergeEach mappingCollision _ _ _ _) as [[e2| |] hM];
    cbn [resourceMaps mappingMaps outputMaps logged];
    rewrite ?app_nil_r; [|done..].
  destruct (mergeEach outputCollision _ _ _ _) as [[e3| |] hO];
    cbn [resourceMaps mappingMaps outputMaps logged];
    rewrite ?app_nil_r; [|done..].
  destruct e3 as [|e es]; [done|].
  rewrite bool_decide_true by (cbn; lia).
  unfold logger_Error at 1. unfold log at 1.
  rewrite forEach_logger_Error.
  unfold withMaps, mret, Go_ret, go_ret, errors_New, collisionReport.
  cbn [resourceMaps mappingMaps outputMaps logged].
  by rewrite <- app_assoc.
Qed.

(** A loop that returns has inserted every entry its destination lacked. *)
Lemma mergeEach_returns_inserted {V : Type} describe dest
    (entries : list (string * V)) (h h' : heap V) errs errs' k v :
  NoDup entries.*1 →
  mergeEach describe dest entries h errs = (Ret errs', h') →
  (k, v) ∈ entries →
  deref h dest !! k = None →
  deref h' dest !! k = Some v.
Proof.
  intros Hnd Hrun Hin Hnone. destruct dest as [l|].
  - destruct (mergeEach_alloc describe l entries h errs Hnd) as (h2 & Hrun2 & Hmap).
    rewrite Hrun in Hrun2. injection Hrun2 as _ ->.
    rewrite Hmap, lookup_union_r by done.
    by apply elem_of_list_to_map.
  - rewrite mergeEach_nil in Hrun. destruct entries; [|done].
    by apply elem_of_nil in Hin.
Qed.

(** With the destination's three collections allocated the merger returns;
    each destination collection becomes its union with the source's, its
    own entries taking precedence, and the logger receives the report of
    the collisions, if there are any. *)
Lemma safeMergeTemplates_allocated order src dst σ :
  allocated dst →
  ∃ σ',
    safeMergeTemplates order src dst σ
    = (Ret (match collisionsOf order σ src dst with
            | [] => None
            | _ :: _ => Some "Template merge failed"
            end), σ')
    ∧ resourcesOf σ' dst = resourcesOf σ dst ∪ resourcesOf σ src
    ∧ mappingsOf σ' dst = mappingsOf σ dst ∪ mappingsOf σ src
    ∧ outputsOf σ' dst = outputsOf σ dst ∪ outputsOf σ src
    ∧ logged σ' = logged σ ++ match collisionsOf order σ src dst with
                              | [] => []
                              | _ :: _ => collisionReport (collisionsOf order σ src dst)
                              end.
Proof.
  destruct dst as [dR dM dO]. unfold allocated.
  cbn [Resources Mappings Outputs]. intros ([lR ->] & [lM ->] & [lO ->]).
  rewrite safeMergeTemplates_run. cbn [Resources Mappings Outputs].
  destruct (mergeEach_alloc resourceCollision lR
              (range_entries order _ (resourcesOf σ src)) (resourceMaps σ) []
              (range_NoDup order _)) as (hR & -> & HR).
  destruct (mergeEach_alloc mappingCollision lM
              (range_entries order _ (mappingsOf σ src)) (mappingMaps σ)
              ([] ++ (resourceCollision <$> collidingKeys
                        (range_entries order _ (resourcesOf σ src))
                        (deref (resourceMaps σ) (Some lR))))
              (range_NoDup order _)) as (hM & -> & HM).
  destruct (mergeEach_alloc outputCollision lO
              (range_entries order _ (outputsOf σ src)) (outputMaps σ)
              (([] ++ (resourceCollision <$> collidingKeys
                        (range_entries order _ (resourcesOf σ src))
                        (deref (resourceMaps σ) (Some lR))))
                ++ (mappingCollision <$> collidingKeys
                        (range_entries order _ (mappingsOf σ src))
                        (deref (mappingMaps σ) (Some lM))))
              (range_NoDup order _)) as (hO & -> & HO).
  rewrite range_list_to_map in HR. rewrite range_list_to_map in HM.
  rewrite range_list_to_map in HO.
  rewrite app_nil_l, <- app_assoc.
  unfold collisionsOf, resourcesOf, mappingsOf, outputsOf in *.
  cbn [Resources Mappings Outputs] in *.
  destruct ((resourceCollision <$> _) ++ _) as [|c cs];
    eexists; (split; [reflexivity|]);
    unfold withMaps; cbn [resourceMaps mappingMaps outputMaps logged];
    by rewrite ?app_nil_r.
Qed.
End Merge.

(** ** Properties of the merger *)

Section MergeProperties.
Context {Mapping Output : Type}.
Implicit Types (σ : @State Mapping Output) (src dst : Template).
Implicit Types (order : RangeOrder).

Lemma collisionReport_itemizes (collisions : list string) msg :
  msg ∈ collisions →
  errorEntry (tab +:+ msg)
  ∈ match collisions with
    | [] => []
    | _ :: _ => collisionReport collisions
    end.
Proof.
  intros Hin. destruct collisions as [|c cs]; [by apply elem_of_nil in Hin|].
  unfold collisionReport. apply list_elem_of_further.
  apply list_elem_of_fmap. by exists msg.
Qed.

(** What one collection looks like after a merge into an allocated
    destination whose content became [after = before ∪ source]. *)
Lemma merged_entry {V : Type} (source before after : gmap string V) k v :
  after = before ∪ source →
  source !! k = Some v →
  match before !! k with
  | Some old => after !! k = Some old
  | None => after !! k = Some v
  end.
Proof.
  intros -> Hv. destruct (before !! k) as [old|] eqn:Hold.
  - by apply lookup_union_Some_l.
  - by rewrite lookup_union_r.
Qed.

(** C1 (amended): for every merge whose destination collections are map
    objects (none is nil) the call returns and, for each of Resources,
    Mappings and Outputs independently, every source key the destination
    already has is recorded as a collision (the logger receives its
    message) and keeps its destination value, and every source key the
    destination lacks is in the destination afterwards with the source's
    value. *)
Theorem safeMergeTemplates_records_or_inserts order src dst σ :
  allocated dst →
  ∃ err σ',
    safeMergeTemplates order src dst σ = (Ret err, σ')
    ∧ (∀ k v, resourcesOf σ src !! k = Some v →
         match resourcesOf σ dst !! k with
         | Some old =>
             errorEntry (tab +:+ resourceCollision k) ∈ logged σ'
             ∧ resourcesOf σ' dst !! k = Some old
         | None => resourcesOf σ' dst !! k = Some v
         end)
    ∧ (∀ k v, mappingsOf σ src !! k = Some v →
         match mappingsOf σ dst !! k with
         | Some old =>
             errorEntry (tab +:+ mappingCollision k) ∈ logged σ'
             ∧ mappingsOf σ' dst !! k = Some old
         | None => mappingsOf σ' dst !! k = Some v
         end)
    ∧ (∀ k v, outputsOf σ src !! k = Some v →
         match outputsOf σ dst !! k with
         | Some old =>
             errorEntry (tab +:+ outputCollision k) ∈ logged σ'
             ∧ outputsOf σ' dst !! k = Some old
         | None => outputsOf σ' dst !! k = Some v
         end).
Proof.
  intros Halloc.
  destruct (safeMergeTemplates_allocated order src dst σ Halloc)
    as (σ' & Hrun & HR & HM & HO & Hlog).
  eexists _, σ'. split; [exact Hrun|].
  assert (∀ msg, msg ∈ collisionsOf order σ src dst →
                 errorEntry (tab +:+ msg) ∈ logged σ') as Hrec.
  { intros msg Hin. rewrite Hlog. apply elem_of_app. right.
    by apply collisionReport_itemizes. }
  split; [|split]; intros k v Hv.
  - pose proof (merged_entry _ _ _ k v HR Hv) as Hk.
    destruct (resourcesOf σ dst !! k) as [old|] eqn:Hold; [|done].
    split; [|done]. apply Hrec. unfold collisionsOf.
    apply elem_of_app. left. apply list_elem_of_fmap. exists k.
    split; [done|]. apply collidingKeys_range. by rewrite Hv, Hold.
  - pose proof (merged_entry _ _ _ k v HM Hv) as Hk.
    destruct (mappingsOf σ dst !! k) as [old|] eqn:Hold; [|done].
    split; [|done]. apply Hrec. unfold collisionsOf.
    apply elem_of_app. right. apply elem_of_app. left.
    apply list_elem_of_fmap. exists k.
    split; [done|]. apply collidingKeys_range. by rewrite Hv, Hold.
  - pose proof (merged_entry _ _ _ k v HO Hv) as Hk.
    destruct (outputsOf σ dst !! k) as [old|] eqn:Hold; [|done].
    split; [|done]. apply Hrec. unfold collisionsOf.
    apply elem_of_app. right. apply elem_of_app. right.
    apply list_elem_of_fmap. exists k.
    split; [done|]. apply collidingKeys_range. by rewrite Hv, Hold.
Qed.

(** The messages of a merge are exactly those of the keys both templates
    have, collection by collection. *)
Lemma elem_of_collisionsOf order σ src dst msg :
  msg ∈ collisionsOf order σ src dst ↔
    (∃ k, msg = resourceCollision k
          ∧ is_Some (resourcesOf σ src !! k) ∧ is_Some (resourcesOf σ dst !! k))
    ∨ (∃ k, msg = mappingCollision k
            ∧ is_Some (mappingsOf σ src !! k) ∧ is_Some (mappingsOf σ dst !! k))
    ∨ (∃ k, msg = outputCollision k
            ∧ is_Some (outputsOf σ src !! k) ∧ is_Some (outputsOf σ dst !! k)).
Proof.
  unfold collisionsOf. rewrite !elem_of_app, !list_elem_of_fmap.
  by setoid_rewrite collidingKeys_range.
Qed.

(** C2 (amended): for every merge whose destination collections are map
    objects the call returns; it returns the error "Template merge failed"
    if and only if some key is in the source and in the destination of the
    same collection, and nil otherwise.  On failure the logger receives a
    heading and then one line for every collision of the three
    collections, and nothing else; without collisions it receives
    nothing. *)
Theorem safeMergeTemplates_fails_iff_collision order src dst σ :
  allocated dst →
  ∃ err σ',
    safeMergeTemplates order src dst σ = (Ret err, σ')
    ∧ (err = Some "Template merge failed" ↔ collisionsOf order σ src dst ≠ [])
    ∧ (err = None ↔ collisionsOf order σ src dst = [])
    ∧ logged σ' = logged σ ++ match err with
                              | Some _ => collisionReport (collisionsOf order σ src dst)
                              | None => []
                              end
    ∧ (∀ msg, msg ∈ collisionsOf order σ src dst ↔
         (∃ k, msg = resourceCollision k
               ∧ is_Some (resourcesOf σ src !! k)
               ∧ is_Some (resourcesOf σ dst !! k))
         ∨ (∃ k, msg = mappingCollision k
                 ∧ is_Some (mappingsOf σ src !! k)
                 ∧ is_Some (mappingsOf σ dst !! k))
         ∨ (∃ k, msg = outputCollision k
                 ∧ is_Some (outputsOf σ src !! k)
                 ∧ is_Some (outputsOf σ dst !! k))).
Proof.
  intros Halloc.
  destruct (safeMergeTemplates_allocated order src dst σ Halloc)
    as (σ' & Hrun & _ & _ & _ & Hlog).
  eexists _, σ'. split; [exact Hrun|].
  split; [|split; [|split]].
  - by destruct (collisionsOf order σ src dst).
  - by destruct (collisionsOf order σ src dst).
  - rewrite Hlog. by destruct (collisionsOf order σ src dst).
  - apply elem_of_collisionsOf.
Qed.

Lemma range_entry {V : Type} order (m : gmap string V) k v :
  (k, v) ∈ range_entries order V m ↔ m !! k = Some v.
Proof. rewrite (range_entries_perm order V m). apply elem_of_map_to_list. Qed.

(** C3: when a merge returns an error, every entry of the source whose key
    the destination lacked is in the destination afterwards, with the
    source's value: the inserts made before the failure was reported are
    kept. *)
Theorem safeMergeTemplates_not_rolled_back order src dst σ σ' failure :
  safeMergeTemplates order src dst σ = (Ret (Some failure), σ') →
  (∀ k v, resourcesOf σ src !! k = Some v → resourcesOf σ dst !! k = None →
          resourcesOf σ' dst !! k = Some v)
  ∧ (∀ k v, mappingsOf σ src !! k = Some v → mappingsOf σ dst !! k = None →
            mappingsOf σ' dst !! k = Some v)
  ∧ (∀ k v, outputsOf σ src !! k = Some v → outputsOf σ dst !! k = None →
            outputsOf σ' dst !! k = Some v).
Proof.
  rewrite safeMergeTemplates_run.
  destruct (mergeEach resourceCollision _ _ _ _) as [[e1| |] hR] eqn:HR; [|done..].
  destruct (mergeEach mappingCollision _ _ _ _) as [[e2| |] hM] eqn:HM; [|done..].
  destruct (mergeEach outputCollision _ _ _ _) as [[e3| |] hO] eqn:HO; [|done..].
  destruct e3 as [|e es]; [done|]. intros [= <- <-].
  unfold resourcesOf, mappingsOf, outputsOf, withMaps.
  cbn [resourceMaps mappingMaps outputMaps].
  split; [|split]; intros k v Hv Hnone.
  - eapply mergeEach_returns_inserted;
      [apply (range_NoDup order)|exact HR|by apply range_entry|done].
  - eapply mergeEach_returns_inserted;
      [apply (range_NoDup order)|exact HM|by apply range_entry|done].
  - eapply mergeEach_returns_inserted;
      [apply (range_NoDup order)|exact HO|by apply range_entry|done].
Qed.

(** C10: whether a merge returns nil, returns an error or panics, the
    three collections of the source template hold afterwards exactly what
    they held before, also when source and destination share a map. *)
Theorem safeMergeTemplates_source_unchanged order src dst σ :
  resourcesOf (safeMergeTemplates order src dst σ).2 src = resourcesOf σ src
  ∧ mappingsOf (safeMergeTemplates order src dst σ).2 src = mappingsOf σ src
  ∧ outputsOf (safeMergeTemplates order src dst σ).2 src = outputsOf σ src.
Proof.
  rewrite safeMergeTemplates_run.
  pose proof (mergeEach_source_stable order resourceCollision (Resources src)
                (Resources dst) (resourceMaps σ) []) as HR.
  destruct (mergeEach resourceCollision _ _ _ _) as [[e1| |] hR];
    cbn [snd] in HR; [|done..].
  pose proof (mergeEach_source_stable order mappingCollision (Mappings src)
                (Mappings dst) (mappingMaps σ) e1) as HM.
  destruct (mergeEach mappingCollision _ _ _ _) as [[e2| |] hM];
    cbn [snd] in HM; [|done..].
  pose proof (mergeEach_source_stable order outputCollision (Outputs src)
                (Outputs dst) (outputMaps σ) e2) as HO.
  destruct (mergeEach outputCollision _ _ _ _) as [[e3| |] hO];
    cbn [snd] in HO; [|done..].
  by destruct e3.
Qed.

Lemma no_collisions_of_disjoint order σ src dst :
  dom (resourcesOf σ src) ## dom (resourcesOf σ dst) →
  dom (mappingsOf σ src) ## dom (mappingsOf σ dst) →
  dom (outputsOf σ src) ## dom (outputsOf σ dst) →
  collisionsOf order σ src dst = [].
Proof.
  intros HR HM HO. unfold collisionsOf.
  apply (collidingKeys_nil order) in HR, HM, HO.
  by rewrite HR, HM, HO.
Qed.

(** C8 (amended): for two templates whose collections are all map objects
    and whose key sets are disjoint in each of the three collections,
    merging the one into the other returns nil and leaves in the
    destination exactly the union of the entries of both, and merging the
    other way round returns nil too and leaves the same content in the
    template that is then the destination. *)
Theorem safeMergeTemplates_disjoint_union order order' src dst σ :
  allocated src →
  allocated dst →
  dom (resourcesOf σ src) ## dom (resourcesOf σ dst) →
  dom (mappingsOf σ src) ## dom (mappingsOf σ dst) →
  dom (outputsOf σ src) ## dom (outputsOf σ dst) →
  ∃ σ1 σ2,
    safeMergeTemplates order src dst σ = (Ret None, σ1)
    ∧ safeMergeTemplates order' dst src σ = (Ret None, σ2)
    ∧ resourcesOf σ1 dst = resourcesOf σ src ∪ resourcesOf σ dst
    ∧ mappingsOf σ1 dst = mappingsOf σ src ∪ mappingsOf σ dst
    ∧ outputsOf σ1 dst = outputsOf σ src ∪ outputsOf σ dst
    ∧ resourcesOf σ2 src = resourcesOf σ1 dst
    ∧ mappingsOf σ2 src = mappingsOf σ1 dst
    ∧ outputsOf σ2 src = outputsOf σ1 dst.
Proof.
  intros Hsrc Hdst HR HM HO.
  destruct (safeMergeTemplates_allocated order src dst σ Hdst)
    as (σ1 & Hrun1 & HR1 & HM1 & HO1 & _).
  destruct (safeMergeTemplates_allocated order' dst src σ Hsrc)
    as (σ2 & Hrun2 & HR2 & HM2 & HO2 & _).
  rewrite no_collisions_of_disjoint in Hrun1 by done.
  rewrite no_collisions_of_disjoint in Hrun2 by done.
  exists σ1, σ2. rewrite HR1, HM1, HO1, HR2, HM2, HO2.
  apply map_disjoint_dom in HR, HM, HO.
  repeat split; try done; by apply map_union_comm.
Qed.
End MergeProperties.

(** ** Properties of the resolver, the factory and the renderer *)

Section Discovery.
Context {Mapping Output : Type}.
Implicit Types (σ : @State Mapping Output) (cfTemplate : Template).

(** C4: for each of the seven kinds the type switch names, the resolver
    returns the attribute names of the policy table, in order, and no
    error: identity role none; table none without a stream specification
    and [StreamArn] with one; stream [Arn]; DNS record set none; bucket
    [DomainName], [WebsiteURL]; topic [TopicName]; queue [Arn],
    [QueueName]. *)
Theorem resourceOutputs_policy_table (resourceName : string) σ :
  resourceOutputs resourceName IAMRole σ = (Ret ([], None), σ)
  ∧ (∀ spec, resourceOutputs resourceName (DynamoDBTable (Some spec)) σ
             = (Ret (["StreamArn"], None), σ))
  ∧ resourceOutputs resourceName (DynamoDBTable None) σ = (Ret ([], None), σ)
  ∧ resourceOutputs resourceName KinesisStream σ = (Ret (["Arn"], None), σ)
  ∧ resourceOutputs resourceName Route53RecordSet σ = (Ret ([], None), σ)
  ∧ resourceOutputs resourceName S3Bucket σ
    = (Ret (["DomainName"; "WebsiteURL"], None), σ)
  ∧ resourceOutputs resourceName SNSTopic σ = (Ret (["TopicName"], None), σ)
  ∧ resourceOutputs resourceName SQSQueue σ
    = (Ret (["Arn"; "QueueName"], None), σ).
Proof. repeat split. Qed.

(** The resolver always returns, and its error is nil. *)
Lemma resourceOutputs_returns (resourceName : string)
    (resource : ResourceProperties) σ :
  ∃ attrs σ',
    resourceOutputs resourceName resource σ = (Ret (attrs, None), σ').
Proof.
  destruct resource as [| [spec|] | | | | | | goType cfnType]; by eexists _, _.
Qed.

(** C6: the resolver returns for every resource-properties value, with a
    nil error; for a value of a type the switch does not name the
    attribute sequence is empty, and the logger receives one warning
    carrying the type's name. *)
Theorem resourceOutputs_total :
  (∀ (resourceName : string) (resource : ResourceProperties) σ,
     ∃ attrs σ',
       resourceOutputs resourceName resource σ = (Ret (attrs, None), σ'))
  ∧ (∀ (resourceName goType cfnType : string) σ,
       resourceOutputs resourceName (OtherResource goType cfnType) σ
       = (Ret ([], None),
          withMaps σ (resourceMaps σ) (mappingMaps σ) (outputMaps σ)
            [ {| entry_level := WarnLevel;
                 entry_fields := [("ResourceType", goType)];
                 entry_message :=
                   "Discovery information for dependency not yet implemented" |} ])).
Proof.
  split; [apply resourceOutputs_returns|done].
Qed.

(** C7: for a logical name the template's Resources do not have, the
    renderer returns the nil slice and the nil error, and changes
    nothing. *)
Theorem discovery_absent_resource cfTemplate (logicalResourceName : string) σ :
  resourcesOf σ cfTemplate !! logicalResourceName = None →
  discoveryResourceInfoForDependency cfTemplate logicalResourceName σ
  = (Ret (None, None), σ).
Proof.
  intros Habsent.
  unfold discoveryResourceInfoForDependency, mbind, Go_bind, go_bind, gets.
  unfold resourcesOf in Habsent. by rewrite Habsent.
Qed.

Lemma string_app_assoc (s1 s2 s3 : string) :
  (s1 +:+ s2) +:+ s3 = s1 +:+ (s2 +:+ s3).
Proof.
  induction s1 as [|c s1 IH]; [done|].
  change (String c ((s1 +:+ s2) +:+ s3) = String c (s1 +:+ (s2 +:+ s3))).
  by rewrite IH.
Qed.

Lemma discoveryDataTemplate_field (d : discoveryDataTemplate) :
  list_to_map (M := gmap string string) (discoveryDataTemplate_fields d)
    !! "ResourceID" = Some (ResourceID d)
  ∧ list_to_map (M := gmap string string) (discoveryDataTemplate_fields d)
    !! "ResourceType" = Some (ResourceType d)
  ∧ list_to_map (M := gmap string string) (discoveryDataTemplate_fields d)
    !! "ResourceProperties" = Some (ResourceProperties_ d).
Proof.
  unfold discoveryDataTemplate_fields. cbn [list_to_map foldr].
  split; [|split].
  - by rewrite lookup_insert_eq.
  - rewrite lookup_insert_ne by done. by rewrite lookup_insert_eq.
  - rewrite !lookup_insert_ne by done. by rewrite lookup_insert_eq.
Qed.

(** Parsing the fixed pattern and executing it yields the document. *)
Lemma discoveryTemplate_renders (d : discoveryDataTemplate) :
  ∃ nodes,
    template_Parse "<<" ">>" discoveryDataForResourceDependency = inr nodes
    ∧ ∀ attrs,
        ResourceProperties_ d
        = strings_Join ((λ attr, quotedAttr attr (ResourceID d)) <$> attrs) "," →
        template_Execute nodes (discoveryDataTemplate_fields d) EmptyString
        = (discoveryDocument (ResourceID d) (ResourceType d) attrs, None).
Proof.
  eexists. split; [vm_compute; reflexivity|].
  intros attrs Hprops.
  destruct (discoveryDataTemplate_field d) as (HID & HType & HProps).
  cbn [template_Execute]. rewrite HID, HType, HProps, Hprops.
  unfold discoveryDocument. rewrite !string_app_assoc. reflexivity.
Qed.

End Discovery.

Section Factory.
Context {Mapping Output : Type}.
Context (NewResourceByType : string → option ResourceProperties).
Implicit Types (σ : @State Mapping Output).

(** A type the registry knows: the property object and a nil error. *)
Lemma newCloudFormationResource_supported (resourceType : string) resProps σ :
  NewResourceByType resourceType = Some resProps →
  newCloudFormationResource NewResourceByType resourceType σ
  = (Ret (Some resProps, None), σ).
Proof. intros Hknown. unfold newCloudFormationResource. by rewrite Hknown. Qed.

(** C9 (defect of the code): the claim wants the unsupported kind handed
    back as a non-nil error beside no value, and the function does build
    that error on the line after the fatal log call.  It is never
    returned: when the registry has no property object for the requested
    type name, the logger receives the fatal entry and the process ends
    with exit status 1 before the return statement is reached. *)
Theorem newCloudFormationResource_unsupported_exits (resourceType : string) σ :
  NewResourceByType resourceType = None →
  newCloudFormationResource NewResourceByType resourceType σ
  = (Exit 1,
     withMaps σ (resourceMaps σ) (mappingMaps σ) (outputMaps σ)
       [unsupportedEntry resourceType]).
Proof. intros Hunknown. unfold newCloudFormationResource. by rewrite Hunknown. Qed.
End Factory.

(** ** The statements at concrete templates *)

(** ** The statements at concrete templates *)

(** Merging [fragment] into [stack]: ["A"] collides and keeps the value of
    [stack], ["B"] is inserted. *)
Lemma safeMergeTemplates_records_or_inserts_witness :
  ∃ err σ',
    safeMergeTemplates ascending fragment stack twoTemplates = (Ret err, σ')
    ∧ resourcesOf σ' stack !! "A" = Some topic
    ∧ resourcesOf σ' stack !! "B" = Some bucket
    ∧ errorEntry (tab +:+ resourceCollision "A") ∈ logged σ'.
Proof.
  destruct (safeMergeTemplates_records_or_inserts ascending fragment stack
              twoTemplates) as (err & σ' & Hrun & HR & _).
  { unfold allocated, stack. cbn. eauto. }
  exists err, σ'. split; [exact Hrun|].
  pose proof (HR "A" queue eq_refl) as HA.
  pose proof (HR "B" bucket eq_refl) as HB.
  change (resourcesOf twoTemplates stack !! "A") with (Some topic) in HA.
  change (resourcesOf twoTemplates stack !! "B") with (@None Resource) in HB.
  destruct HA as [Hlog HA]. split; [exact HA|]. split; [exact HB|exact Hlog].
Defined.

(** With a nil destination collection the inserts do not happen: resource
    ["B"] of [fragment] is absent from the zero template, the call panics
    and ["B"] is not in the destination afterwards. *)
Lemma safeMergeTemplates_nil_destination_not_inserted :
  resourcesOf twoTemplates fragment !! "B" = Some bucket
  ∧ resourcesOf twoTemplates zeroTemplate !! "B" = None
  ∧ (safeMergeTemplates ascending fragment zeroTemplate twoTemplates).1
    = Panic "assignment to entry in nil map"
  ∧ resourcesOf (safeMergeTemplates ascending fragment zeroTemplate twoTemplates).2
      zeroTemplate !! "B" = None.
Proof. repeat split; vm_compute; reflexivity. Qed.

(** Merging [fragment] into [stack] fails, and the logger receives the
    heading and the two collisions, one of Resources and one of Outputs. *)
Lemma safeMergeTemplates_fails_iff_collision_witness :
  ∃ σ',
    safeMergeTemplates ascending fragment stack twoTemplates
    = (Ret (Some "Template merge failed"), σ')
    ∧ logged σ' = collisionReport [resourceCollision "A"; outputCollision "Url"].
Proof.
  destruct (safeMergeTemplates_fails_iff_collision ascending fragment stack
              twoTemplates) as (err & σ' & Hrun & _ & _ & Hlog & _).
  { unfold allocated, stack. cbn. eauto. }
  exists σ'.
  assert (err = Some "Template merge failed") as ->.
  { vm_compute in Hrun. by injection Hrun as <- _. }
  split; [exact Hrun|]. rewrite Hlog. vm_compute. reflexivity.
Defined.

(** With a nil destination collection a merge without collisions does not
    succeed: no key of [fragment] is in the zero template, yet the call
    does not return nil, it panics. *)
Lemma safeMergeTemplates_nil_destination_no_success :
  collisionsOf ascending twoTemplates fragment zeroTemplate = []
  ∧ (safeMergeTemplates ascending fragment zeroTemplate twoTemplates).1
    ≠ Ret None
  ∧ (safeMergeTemplates ascending fragment zeroTemplate twoTemplates).1
    = Panic "assignment to entry in nil map".
Proof. split; [|split]; vm_compute; [reflexivity|discriminate|reflexivity]. Qed.

(** The failing merge of [fragment] into [stack] has left ["B"] in [stack]. *)
Lemma safeMergeTemplates_not_rolled_back_witness :
  resourcesOf (safeMergeTemplates ascending fragment stack twoTemplates).2 stack
    !! "B" = Some bucket.
Proof.
  destruct (safeMergeTemplates_not_rolled_back ascending fragment stack
              twoTemplates
              (safeMergeTemplates ascending fragment stack twoTemplates).2
              "Template merge failed") as [HR _].
  { vm_compute. reflexivity. }
  apply HR; vm_compute; reflexivity.
Defined.

(** The two disjoint templates merge to the same content either way. *)
Lemma safeMergeTemplates_disjoint_union_witness :
  ∃ σ1 σ2,
    safeMergeTemplates ascending fragment stack disjointTemplates = (Ret None, σ1)
    ∧ safeMergeTemplates descending stack fragment disjointTemplates = (Ret None, σ2)
    ∧ resourcesOf σ1 stack = {[ "A" := topic; "B" := bucket ]}
    ∧ resourcesOf σ2 fragment = resourcesOf σ1 stack.
Proof.
  destruct (safeMergeTemplates_disjoint_union ascending descending fragment
              stack disjointTemplates)
    as (σ1 & σ2 & Hrun1 & Hrun2 & HR & _ & _ & HR' & _).
  - unfold allocated, fragment. cbn. eauto.
  - unfold allocated, stack. cbn. eauto.
  - apply (bool_decide_unpack _); vm_compute; exact I.
  - apply (bool_decide_unpack _); vm_compute; exact I.
  - apply (bool_decide_unpack _); vm_compute; exact I.
  - exists σ1, σ2. split; [exact Hrun1|]. split; [exact Hrun2|].
    split; [exact HR|exact HR'].
Defined.

(** With a nil destination collection templates with disjoint keys do not
    merge: the zero template shares no key with [fragment], the call
    panics and the destination does not hold the union. *)
Lemma safeMergeTemplates_nil_destination_no_union :
  dom (resourcesOf disjointTemplates fragment)
    ## dom (resourcesOf disjointTemplates zeroTemplate)
  ∧ dom (mappingsOf disjointTemplates fragment)
    ## dom (mappingsOf disjointTemplates zeroTemplate)
  ∧ dom (outputsOf disjointTemplates fragment)
    ## dom (outputsOf disjointTemplates zeroTemplate)
  ∧ (safeMergeTemplates ascending fragment zeroTemplate disjointTemplates).1
    = Panic "assignment to entry in nil map"
  ∧ resourcesOf
      (safeMergeTemplates ascending fragment zeroTemplate disjointTemplates).2
      zeroTemplate !! "B" = None.
Proof.
  repeat split; try (apply (bool_decide_unpack _); vm_compute; exact I);
    vm_compute; reflexivity.
Qed.

(** A name the template does not declare. *)
Lemma discovery_absent_resource_witness :
  discoveryResourceInfoForDependency fragment "Missing" queueStore
  = (Ret (None, None), queueStore).
Proof. apply discovery_absent_resource. vm_compute. reflexivity. Defined.


(** A type name the registry does not know. *)
Lemma newCloudFormationResource_unsupported_exits_witness :
  newCloudFormationResource builtinRegistry "AWS::Bogus::Thing" queueStore
  = (Exit 1,
     withMaps queueStore (resourceMaps queueStore) (mappingMaps queueStore)
       (outputMaps queueStore) [unsupportedEntry "AWS::Bogus::Thing"]).
Proof.
  apply newCloudFormationResource_unsupported_exits. vm_compute. reflexivity.
Defined.

(** The factory at a type name the registry does not know: the process
    exits, and the error the function builds is not returned. *)
Lemma newCloudFormationResource_unsupported_not_returned :
  builtinRegistry "AWS::Bogus::Thing" = None
  ∧ (newCloudFormationResource builtinRegistry "AWS::Bogus::Thing" queueStore).1
    = Exit 1
  ∧ (newCloudFormationResource builtinRegistry "AWS::Bogus::Thing" queueStore).1
    ≠ Ret (None, Some "Unsupported CustomResourceType: AWS::Bogus::Thing").
Proof. split; [|split]; vm_compute; [reflexivity|reflexivity|discriminate]. Qed.

(** ** Further properties of the merger *)

Section MergeFurther.
Context {Mapping Output : Type}.
Implicit Types (σ : @State Mapping Output) (src dst : Template).
Implicit Types (order : RangeOrder).

(** What holds between the map objects before and after each loop holds
    between the states before and after the merger, however it ends. *)
Lemma safeMergeTemplates_preserves order src dst σ
    (PR : relation (gmap positive (gmap string Resource)))
    (PM : relation (gmap positive (gmap string Mapping)))
    (PO : relation (gmap positive (gmap string Output))) :
  (∀ h, PR h h) → (∀ h, PM h h) → (∀ h, PO h h) →
  (∀ describe entries h errs,
     PR h (mergeEach describe (Resources dst) entries h errs).2) →
  (∀ describe entries h errs,
     PM h (mergeEach describe (Mappings dst) entries h errs).2) →
  (∀ describe entries h errs,
     PO h (mergeEach describe (Outputs dst) entries h errs).2) →
  PR (resourceMaps σ) (resourceMaps (safeMergeTemplates order src dst σ).2)
  ∧ PM (mappingMaps σ) (mappingMaps (safeMergeTemplates order src dst σ).2)
  ∧ PO (outputMaps σ) (outputMaps (safeMergeTemplates order src dst σ).2).
Proof.
  intros HR0 HM0 HO0 HR HM HO. rewrite safeMergeTemplates_run.
  specialize (HR resourceCollision
                (range_entries order _ (resourcesOf σ src)) (resourceMaps σ) []).
  destruct (mergeEach resourceCollision _ _ _ _) as [[e1| |] hR];
    cbn [snd] in HR; [|done..].
  specialize (HM mappingCollision
                (range_entries order _ (mappingsOf σ src)) (mappingMaps σ) e1).
  destruct (mergeEach mappingCollision _ _ _ _) as [[e2| |] hM];
    cbn [snd] in HM; [|done..].
  specialize (HO outputCollision
                (range_entries order _ (outputsOf σ src)) (outputMaps σ) e2).
  destruct (mergeEach outputCollision _ _ _ _) as [[e3| |] hO];
    cbn [snd] in HO; [|done..].
  by destruct e3.
Qed.

Lemma mergeEach_grows {V : Type} describe dest (entries : list (string * V))
    (h : gmap positive (gmap string V)) errs :
  deref h dest ⊆ deref (mergeEach describe dest entries h errs).2 dest.
Proof.
  apply map_subseteq_spec. intros k x Hx. by apply mergeEach_keeps.
Qed.

(** X1: however a merge ends, every entry the destination had is still
    there with its value: each destination collection only grows. *)
Theorem safeMergeTemplates_destination_grows order src dst σ :
  resourcesOf σ dst ⊆ resourcesOf (safeMergeTemplates order src dst σ).2 dst
  ∧ mappingsOf σ dst ⊆ mappingsOf (safeMergeTemplates order src dst σ).2 dst
  ∧ outputsOf σ dst ⊆ outputsOf (safeMergeTemplates order src dst σ).2 dst.
Proof.
  apply (safeMergeTemplates_preserves order src dst σ
           (λ h h', deref h (Resources dst) ⊆ deref h' (Resources dst))
           (λ h h', deref h (Mappings dst) ⊆ deref h' (Mappings dst))
           (λ h h', deref h (Outputs dst) ⊆ deref h' (Outputs dst)));
    try done; intros; apply mergeEach_grows.
Qed.

(** X2: a merge writes to no map but the three of its destination: what is
    read through any other reference is the same afterwards, however the
    merge ends. *)
Theorem safeMergeTemplates_frame order src dst σ (rR rM rO : mapref) :
  rR ≠ Resources dst → rM ≠ Mappings dst → rO ≠ Outputs dst →
  deref (resourceMaps (safeMergeTemplates order src dst σ).2) rR
  = deref (resourceMaps σ) rR
  ∧ deref (mappingMaps (safeMergeTemplates order src dst σ).2) rM
    = deref (mappingMaps σ) rM
  ∧ deref (outputMaps (safeMergeTemplates order src dst σ).2) rO
    = deref (outputMaps σ) rO.
Proof.
  intros HR HM HO.
  apply (safeMergeTemplates_preserves order src dst σ
           (λ h h', deref h' rR = deref h rR)
           (λ h h', deref h' rM = deref h rM)
           (λ h h', deref h' rO = deref h rO));
    try done; intros; by apply mergeEach_frame.
Qed.
Lemma range_nil {V : Type} order (m : gmap string V) :
  range_entries order V m = [] ↔ m = ∅.
Proof.
  rewrite <- (map_to_list_empty_iff m). split; intros Hnil.
  - apply Permutation_nil_r. rewrite <- Hnil. symmetry. apply range_entries_perm.
  - apply Permutation_nil_r. rewrite <- Hnil. apply range_entries_perm.
Qed.

(** A loop panics exactly when its destination is nil and its source has
    an entry; the map objects are then as they were. *)
Lemma mergeEach_range_outcome {V : Type} order describe dest
    (m : gmap string V) (h : gmap positive (gmap string V)) errs :
  (dest = None ∧ m ≠ ∅
   ∧ mergeEach describe dest (range_entries order V m) h errs
     = (Panic "assignment to entry in nil map", h))
  ∨ (¬ (dest = None ∧ m ≠ ∅)
     ∧ ∃ errs' h',
         mergeEach describe dest (range_entries order V m) h errs
         = (Ret errs', h')).
Proof.
  destruct dest as [l|].
  - right. split; [by intros [? _]|].
    destruct (mergeEach_alloc describe l (range_entries order V m) h errs
                (range_NoDup order m)) as (h' & Hrun & _).
    by eexists _, h'.
  - rewrite mergeEach_nil.
    destruct (range_entries order V m) as [|entry rest] eqn:Hrange.
    + right. apply range_nil in Hrange. split; [by intros [_ ?]|]. by eexists _, _.
    + left. split; [done|]. split; [|done].
      intros Hempty. apply (range_nil order) in Hempty. congruence.
Qed.

(** X3: a merge panics exactly when some destination collection is nil
    while the source's collection of that kind has an entry; the logger
    has then received nothing, so collisions found before the panic are
    not reported.  A merge never ends the process. *)
Theorem safeMergeTemplates_panics_iff_nil_destination order src dst σ :
  match (safeMergeTemplates order src dst σ).1 with
  | Ret _ =>
      ¬ ((Resources dst = None ∧ resourcesOf σ src ≠ ∅)
         ∨ (Mappings dst = None ∧ mappingsOf σ src ≠ ∅)
         ∨ (Outputs dst = None ∧ outputsOf σ src ≠ ∅))
  | Panic reason =>
      reason = "assignment to entry in nil map"
      ∧ logged (safeMergeTemplates order src dst σ).2 = logged σ
      ∧ ((Resources dst = None ∧ resourcesOf σ src ≠ ∅)
         ∨ (Mappings dst = None ∧ mappingsOf σ src ≠ ∅)
         ∨ (Outputs dst = None ∧ outputsOf σ src ≠ ∅))
  | Exit _ => False
  end.
Proof.
  rewrite safeMergeTemplates_run.
  destruct (mergeEach_range_outcome order resourceCollision (Resources dst)
              (resourcesOf σ src) (resourceMaps σ) [])
    as [(HdR & HsR & ->)|(HnR & e1 & hR & ->)]; cbn [fst snd withMaps logged].
  { rewrite app_nil_r. tauto. }
  destruct (mergeEach_range_outcome order mappingCollision (Mappings dst)
              (mappingsOf σ src) (mappingMaps σ) e1)
    as [(HdM & HsM & ->)|(HnM & e2 & hM & ->)]; cbn [fst snd withMaps logged].
  { rewrite app_nil_r. tauto. }
  destruct (mergeEach_range_outcome order outputCollision (Outputs dst)
              (outputsOf σ src) (outputMaps σ) e2)
    as [(HdO & HsO & ->)|(HnO & e3 & hO & ->)]; cbn [fst snd withMaps logged].
  { rewrite app_nil_r. tauto. }
  destruct e3; cbn [fst]; tauto.
Qed.

Lemma mergeEach_returns_covers {V : Type} describe dest
    (entries : list (string * V)) (h h' : gmap positive (gmap string V))
    errs errs' k :
  NoDup entries.*1 →
  mergeEach describe dest entries h errs = (Ret errs', h') →
  k ∈ entries.*1 →
  is_Some (deref h' dest !! k).
Proof.
  intros Hnd Hrun Hk. apply list_elem_of_fmap in Hk as ([k' v] & -> & Hin).
  cbn [fst]. destruct (deref h dest !! k') as [x|] eqn:Hx.
  - exists x. replace h' with (mergeEach describe dest entries h errs).2
      by by rewrite Hrun.
    by apply mergeEach_keeps.
  - exists v. by eapply mergeEach_returns_inserted.
Qed.

(** When the destination has every key of the source, the merger changes
    no map object; it returns nil exactly when the source is empty. *)
Lemma safeMergeTemplates_all_present order src dst σ :
  (∀ k, is_Some (resourcesOf σ src !! k) → is_Some (resourcesOf σ dst !! k)) →
  (∀ k, is_Some (mappingsOf σ src !! k) → is_Some (mappingsOf σ dst !! k)) →
  (∀ k, is_Some (outputsOf σ src !! k) → is_Some (outputsOf σ dst !! k)) →
  ∃ e σ',
    safeMergeTemplates order src dst σ = (Ret e, σ')
    ∧ resourceMaps σ' = resourceMaps σ
    ∧ mappingMaps σ' = mappingMaps σ
    ∧ outputMaps σ' = outputMaps σ
    ∧ (e = None ↔
         resourcesOf σ src = ∅ ∧ mappingsOf σ src = ∅ ∧ outputsOf σ src = ∅)
    ∧ (e = None → logged σ' = logged σ).
Proof.
  intros HR HM HO. rewrite safeMergeTemplates_run.
  rewrite !mergeEach_present by (intros k Hk; apply range_key in Hk; auto).
  rewrite app_nil_l.
  destruct (range_entries order _ (resourcesOf σ src)) as [|[kR vR] restR] eqn:HeR;
    [|eexists _, _; split; [reflexivity|];
      unfold withMaps; cbn [resourceMaps mappingMaps outputMaps logged];
      repeat split; try done;
      intros (Hempty & _); apply (range_nil order) in Hempty; congruence].
  destruct (range_entries order _ (mappingsOf σ src)) as [|[kM vM] restM] eqn:HeM;
    [|eexists _, _; split; [reflexivity|];
      unfold withMaps; cbn [resourceMaps mappingMaps outputMaps logged];
      repeat split; try done;
      intros (_ & Hempty & _); apply (range_nil order) in Hempty; congruence].
  destruct (range_entries order _ (outputsOf σ src)) as [|[kO vO] restO] eqn:HeO;
    [|eexists _, _; split; [reflexivity|];
      unfold withMaps; cbn [resourceMaps mappingMaps outputMaps logged];
      repeat split; try done;
      intros (_ & _ & Hempty); apply (range_nil order) in Hempty; congruence].
  apply range_nil in HeR, HeM, HeO.
  eexists _, _. split; [reflexivity|].
  unfold withMaps; cbn [resourceMaps mappingMaps outputMaps logged].
  rewrite app_nil_r. done.
Qed.
(** X4: once a merge has returned, with or without collisions, merging the
    same source into the same destination again changes no map object, and
    it returns nil only if the source has no entry at all: every entry of
    the source now collides. *)
Theorem safeMergeTemplates_again order order' src dst σ σ1 e :
  safeMergeTemplates order src dst σ = (Ret e, σ1) →
  ∃ e2 σ2,
    safeMergeTemplates order' src dst σ1 = (Ret e2, σ2)
    ∧ resourceMaps σ2 = resourceMaps σ1
    ∧ mappingMaps σ2 = mappingMaps σ1
    ∧ outputMaps σ2 = outputMaps σ1
    ∧ (e2 = None ↔
         resourcesOf σ src = ∅ ∧ mappingsOf σ src = ∅ ∧ outputsOf σ src = ∅).
Proof.
  rewrite safeMergeTemplates_run.
  pose proof (mergeEach_source_stable order resourceCollision (Resources src)
                (Resources dst) (resourceMaps σ) []) as HsR.
  destruct (mergeEach resourceCollision _ _ _ _) as [[e1| |] hR] eqn:HR; [|done..].
  pose proof (mergeEach_source_stable order mappingCollision (Mappings src)
                (Mappings dst) (mappingMaps σ) e1) as HsM.
  destruct (mergeEach mappingCollision _ _ _ _) as [[e2| |] hM] eqn:HM; [|done..].
  pose proof (mergeEach_source_stable order outputCollision (Outputs src)
                (Outputs dst) (outputMaps σ) e2) as HsO.
  destruct (mergeEach outputCollision _ _ _ _) as [[e3| |] hO] eqn:HO; [|done..].
  cbn [snd] in HsR, HsM, HsO. intros Hσ1.
  assert (resourceMaps σ1 = hR ∧ mappingMaps σ1 = hM ∧ outputMaps σ1 = hO)
    as (HR1 & HM1 & HO1) by (destruct e3; by injection Hσ1 as _ <-).
  destruct (safeMergeTemplates_all_present order' src dst σ1)
    as (e' & σ2 & Hrun & HmR & HmM & HmO & Hnil & _).
  - unfold resourcesOf. rewrite HR1, HsR. intros k Hk.
    eapply mergeEach_returns_covers;
      [apply (range_NoDup order)|exact HR|by apply range_key].
  - unfold mappingsOf. rewrite HM1, HsM. intros k Hk.
    eapply mergeEach_returns_covers;
      [apply (range_NoDup order)|exact HM|by apply range_key].
  - unfold outputsOf. rewrite HO1, HsO. intros k Hk.
    eapply mergeEach_returns_covers;
      [apply (range_NoDup order)|exact HO|by apply range_key].
  - exists e', σ2. repeat (split; [done|]).
    rewrite Hnil. unfold resourcesOf, mappingsOf, outputsOf.
    by rewrite HR1, HM1, HO1, HsR, HsM, HsO.
Qed.

(** X5: merging a template into itself changes no map object, and returns
    nil only if the template has no entry at all. *)
Theorem safeMergeTemplates_self order (t : Template) σ :
  ∃ e σ',
    safeMergeTemplates order t t σ = (Ret e, σ')
    ∧ resourceMaps σ' = resourceMaps σ
    ∧ mappingMaps σ' = mappingMaps σ
    ∧ outputMaps σ' = outputMaps σ
    ∧ (e = None ↔
         resourcesOf σ t = ∅ ∧ mappingsOf σ t = ∅ ∧ outputsOf σ t = ∅).
Proof.
  destruct (safeMergeTemplates_all_present order t t σ)
    as (e & σ' & Hrun & HR & HM & HO & Hnil & _); [done..|].
  by exists e, σ'.
Qed.

(** X6: merging a source without entries returns nil and changes nothing,
    neither a map nor the logger, also when the destination's maps are
    nil. *)
Theorem safeMergeTemplates_empty_source order src dst σ :
  resourcesOf σ src = ∅ → mappingsOf σ src = ∅ → outputsOf σ src = ∅ →
  safeMergeTemplates order src dst σ = (Ret None, σ).
Proof.
  intros HR HM HO.
  destruct (safeMergeTemplates_all_present order src dst σ)
    as (e & σ' & Hrun & HmR & HmM & HmO & Hnil & Hlog).
  - rewrite HR. intros k [x Hx]. by rewrite lookup_empty in Hx.
  - rewrite HM. intros k [x Hx]. by rewrite lookup_empty in Hx.
  - rewrite HO. intros k [x Hx]. by rewrite lookup_empty in Hx.
  - assert (e = None) as -> by by apply Hnil.
    specialize (Hlog eq_refl). rewrite Hrun. f_equal.
    destruct σ, σ'. cbn in *. congruence.
Qed.
Lemma range_orders_perm {V : Type} order order' (m : gmap string V) :
  range_entries order V m ≡ₚ range_entries order' V m.
Proof. by rewrite !range_entries_perm. Qed.

Lemma collidingKeys_perm {V : Type} (entries entries' : list (string * V))
    (dst : gmap string V) :
  entries ≡ₚ entries' → collidingKeys entries dst ≡ₚ collidingKeys entries' dst.
Proof. intros Hperm. unfold collidingKeys. by rewrite Hperm. Qed.

Lemma collisionsOf_perm order order' σ src dst :
  collisionsOf order σ src dst ≡ₚ collisionsOf order' σ src dst.
Proof.
  unfold collisionsOf.
  rewrite (collidingKeys_perm _ _ (resourcesOf σ dst)
             (range_orders_perm order order' (resourcesOf σ src))).
  rewrite (collidingKeys_perm _ _ (mappingsOf σ dst)
             (range_orders_perm order order' (mappingsOf σ src))).
  rewrite (collidingKeys_perm _ _ (outputsOf σ dst)
             (range_orders_perm order order' (outputsOf σ src))).
  done.
Qed.

(** X7: with the destination's collections allocated, the order in which
    [range] visits the source maps changes neither the result nor what any
    map holds afterwards; only the order of the reported lines depends on
    it. *)
Theorem safeMergeTemplates_order_independent order order' src dst σ :
  allocated dst →
  ∃ e σ1 σ2,
    safeMergeTemplates order src dst σ = (Ret e, σ1)
    ∧ safeMergeTemplates order' src dst σ = (Ret e, σ2)
    ∧ (∀ r, deref (resourceMaps σ1) r = deref (resourceMaps σ2) r)
    ∧ (∀ r, deref (mappingMaps σ1) r = deref (mappingMaps σ2) r)
    ∧ (∀ r, deref (outputMaps σ1) r = deref (outputMaps σ2) r)
    ∧ logged σ1 ≡ₚ logged σ2.
Proof.
  intros Halloc.
  destruct (safeMergeTemplates_allocated order src dst σ Halloc)
    as (σ1 & Hrun1 & HR1 & HM1 & HO1 & Hlog1).
  destruct (safeMergeTemplates_allocated order' src dst σ Halloc)
    as (σ2 & Hrun2 & HR2 & HM2 & HO2 & Hlog2).
  pose proof (collisionsOf_perm order order' σ src dst) as Hperm.
  assert (∀ rR rM rO,
            rR ≠ Resources dst → rM ≠ Mappings dst → rO ≠ Outputs dst →
            deref (resourceMaps σ1) rR = deref (resourceMaps σ2) rR
            ∧ deref (mappingMaps σ1) rM = deref (mappingMaps σ2) rM
            ∧ deref (outputMaps σ1) rO = deref (outputMaps σ2) rO) as Hframe.
  { intros rR rM rO HrR HrM HrO.
    destruct (safeMergeTemplates_preserves order src dst σ
                (λ h h', deref h' rR = deref h rR)
                (λ h h', deref h' rM = deref h rM)
                (λ h h', deref h' rO = deref h rO))
      as (F1 & F2 & F3); try done; try (intros; by apply mergeEach_frame).
    destruct (safeMergeTemplates_preserves order' src dst σ
                (λ h h', deref h' rR = deref h rR)
                (λ h h', deref h' rM = deref h rM)
                (λ h h', deref h' rO = deref h rO))
      as (G1 & G2 & G3); try done; try (intros; by apply mergeEach_frame).
    rewrite Hrun1 in F1, F2, F3. rewrite Hrun2 in G1, G2, G3.
    cbn [snd] in *. by rewrite F1, F2, F3, G1, G2, G3. }
  destruct Halloc as ([lR HlR] & [lM HlM] & [lO HlO]).
  exists (match collisionsOf order σ src dst with
          | [] => None
          | _ :: _ => Some "Template merge failed"
          end), σ1, σ2.
  split; [exact Hrun1|]. split.
  { rewrite Hrun2. f_equal. f_equal.
    destruct (collisionsOf order σ src dst) as [|c cs].
    - apply Permutation_nil_l in Hperm. by rewrite <- Hperm.
    - destruct (collisionsOf order' σ src dst); [|done].
      by apply Permutation_nil_r in Hperm. }
  split; [|split; [|split]].
  - intros r. destruct (decide (r = Resources dst)) as [->|Hne].
    + fold (resourcesOf σ1 dst) (resourcesOf σ2 dst). by rewrite HR1, HR2.
    + apply (Hframe r (Some (Pos.succ lM)) (Some (Pos.succ lO)));
        [done|rewrite HlM|rewrite HlO]; intros [= ?]; lia.
  - intros r. destruct (decide (r = Mappings dst)) as [->|Hne].
    + fold (mappingsOf σ1 dst) (mappingsOf σ2 dst). by rewrite HM1, HM2.
    + apply (Hframe (Some (Pos.succ lR)) r (Some (Pos.succ lO)));
        [rewrite HlR|done|rewrite HlO]; intros [= ?]; lia.
  - intros r. destruct (decide (r = Outputs dst)) as [->|Hne].
    + fold (outputsOf σ1 dst) (outputsOf σ2 dst). by rewrite HO1, HO2.
    + apply (Hframe (Some (Pos.succ lR)) (Some (Pos.succ lM)) r);
        [rewrite HlR|rewrite HlM|done]; intros [= ?]; lia.
  - rewrite Hlog1, Hlog2. apply Permutation_app_head.
    destruct (collisionsOf order σ src dst) as [|c cs].
    + apply Permutation_nil_l in Hperm. by rewrite <- Hperm.
    + destruct (collisionsOf order' σ src dst) as [|c' cs'];
        [by apply Permutation_nil_r in Hperm|].
      unfold collisionReport. by rewrite Hperm.
Qed.
Lemma string_app_inj (prefix s1 s2 : string) :
  prefix +:+ s1 = prefix +:+ s2 → s1 = s2.
Proof.
  induction prefix as [|c prefix IH]; [done|].
  change (String c (prefix +:+ s1) = String c (prefix +:+ s2) → s1 = s2).
  intros [= H]. by apply IH.
Qed.

Lemma collidingKeys_NoDup {V : Type} order (m dst : gmap string V) :
  NoDup (collidingKeys (range_entries order V m) dst).
Proof. apply NoDup_filter, range_NoDup. Qed.

Lemma collidingKeys_length {V : Type} order (m dst : gmap string V) :
  length (collidingKeys (range_entries order V m) dst)
  = size (dom m ∩ dom dst).
Proof.
  rewrite <- (size_list_to_set (C := gset string)) by apply collidingKeys_NoDup.
  f_equal. apply set_eq. intros k.
  rewrite elem_of_list_to_set, collidingKeys_range, elem_of_intersection.
  by rewrite !elem_of_dom.
Qed.

(** No two collisions of a merge have the same message. *)
Lemma collisionsOf_NoDup order σ src dst : NoDup (collisionsOf order σ src dst).
Proof.
  unfold collisionsOf. apply NoDup_app. split; [|split].
  - apply NoDup_fmap_2_strong; [|apply collidingKeys_NoDup].
    intros k1 k2 _ _. apply string_app_inj.
  - intros msg HR Hrest.
    apply list_elem_of_fmap in HR as (k & -> & _).
    apply elem_of_app in Hrest as [HM|HO].
    + apply list_elem_of_fmap in HM as (k' & Heq & _).
      cbv [resourceCollision mappingCollision String.append] in Heq. discriminate.
    + apply list_elem_of_fmap in HO as (k' & Heq & _).
      cbv [resourceCollision outputCollision String.append] in Heq. discriminate.
  - apply NoDup_app. split; [|split].
    + apply NoDup_fmap_2_strong; [|apply collidingKeys_NoDup].
      intros k1 k2 _ _. apply string_app_inj.
    + intros msg HM HO.
      apply list_elem_of_fmap in HM as (k & -> & _).
      apply list_elem_of_fmap in HO as (k' & Heq & _).
      cbv [mappingCollision outputCollision String.append] in Heq. discriminate.
    + apply NoDup_fmap_2_strong; [|apply collidingKeys_NoDup].
      intros k1 k2 _ _. apply string_app_inj.
Qed.

(** X8: when a merge into allocated destination collections fails, the
    logger receives the heading and then lines that are pairwise
    different, one for each key the source and the destination share in
    Resources, in Mappings and in Outputs: every collision is reported
    exactly once. *)
Theorem safeMergeTemplates_reports_each_once order src dst σ σ' failure :
  allocated dst →
  safeMergeTemplates order src dst σ = (Ret (Some failure), σ') →
  ∃ lines,
    logged σ'
    = logged σ
      ++ errorEntry "Failed to update template. The following collisions were found:"
         :: lines
    ∧ NoDup lines
    ∧ length lines
      = size (dom (resourcesOf σ src) ∩ dom (resourcesOf σ dst))
        + size (dom (mappingsOf σ src) ∩ dom (mappingsOf σ dst))
        + size (dom (outputsOf σ src) ∩ dom (outputsOf σ dst)).
Proof.
  intros Halloc Hrun.
  destruct (safeMergeTemplates_allocated order src dst σ Halloc)
    as (σ1 & Hrun1 & _ & _ & _ & Hlog).
  rewrite Hrun in Hrun1.
  destruct (collisionsOf order σ src dst) as [|c cs] eqn:Hcs; [done|].
  injection Hrun1 as _ <-. rewrite <- Hcs in Hlog.
  exists ((λ eachError, errorEntry (tab +:+ eachError))
            <$> collisionsOf order σ src dst).
  split; [exact Hlog|]. split.
  - apply NoDup_fmap_2_strong; [|apply collisionsOf_NoDup].
    intros m1 m2 _ _ [= Heq]. by apply string_app_inj in Heq.
  - rewrite length_fmap. unfold collisionsOf.
    rewrite !length_app, !length_fmap.
    rewrite !collidingKeys_length. lia.
Qed.
End MergeFurther.


(** ** Further properties of the resolver, the renderer and the factory *)

Section DiscoveryFurther.
Context {Mapping Output : Type}.
Implicit Types (σ : @State Mapping Output) (cfTemplate src dst : Template).

(** The state after the resolver: one warning more for a type it does not
    know, and nothing else. *)
Lemma resourceOutputs_state (resourceName : string)
    (resource : ResourceProperties) σ :
  (resourceOutputs resourceName resource σ).2
  = match resource with
    | OtherResource goType _ =>
        withMaps σ (resourceMaps σ) (mappingMaps σ) (outputMaps σ)
          [unknownKindEntry goType]
    | _ => σ
    end.
Proof. by destruct resource as [| [spec|] | | | | | | goType cfnType]. Qed.

(** The attributes depend on the resource alone. *)
Lemma resourceOutputs_value (name1 name2 : string)
    (resource : ResourceProperties) (σ1 σ2 : @State Mapping Output) :
  (resourceOutputs name1 resource σ1).1 = (resourceOutputs name2 resource σ2).1.
Proof. by destruct resource as [| [spec|] | | | | | | goType cfnType]. Qed.

(** The renderer, case by case. *)
Lemma discovery_run cfTemplate (logicalResourceName : string) σ :
  discoveryResourceInfoForDependency cfTemplate logicalResourceName σ
  = match resourcesOf σ cfTemplate !! logicalResourceName with
    | None => (Ret (None, None), σ)
    | Some item =>
        match resourceOutputs logicalResourceName (Properties item) σ with
        | (Ret (attrs, _), σ') =>
            (Ret (Some (discoveryDocument logicalResourceName
                          (CfnResourceType (Properties item)) attrs), None), σ')
        | (Panic reason, σ') => (Panic reason, σ')
        | (Exit code, σ') => (Exit code, σ')
        end
    end.
Proof.
  unfold discoveryResourceInfoForDependency, mbind, Go_bind, go_bind, gets.
  unfold resourcesOf.
  destruct (deref (resourceMaps σ) (Resources cfTemplate) !! logicalResourceName)
    as [item|]; [|done].
  destruct (resourceOutputs_returns logicalResourceName (Properties item) σ)
    as (attrs & σ' & ->).
  set (d := {| ResourceID := logicalResourceName;
               ResourceType := CfnResourceType (Properties item);
               ResourceProperties_ :=
                 strings_Join
                   ((λ eachOutput, quotedAttr eachOutput logicalResourceName)
                      <$> attrs) "," |}).
  destruct (discoveryTemplate_renders d) as (nodes & -> & Hexec).
  by rewrite (Hexec attrs eq_refl).
Qed.

(** What the renderer returns for a name depends on the resource the
    template has under that name, and on nothing else. *)
Lemma discovery_value cfTemplate1 cfTemplate2 (logicalResourceName : string)
    (σ1 σ2 : @State Mapping Output) :
  resourcesOf σ1 cfTemplate1 !! logicalResourceName
  = resourcesOf σ2 cfTemplate2 !! logicalResourceName →
  (discoveryResourceInfoForDependency cfTemplate1 logicalResourceName σ1).1
  = (discoveryResourceInfoForDependency cfTemplate2 logicalResourceName σ2).1.
Proof.
  intros Hsame. rewrite !discovery_run, Hsame.
  destruct (resourcesOf σ2 cfTemplate2 !! logicalResourceName) as [item|];
    [|done].
  pose proof (resourceOutputs_value logicalResourceName logicalResourceName
                (Properties item) σ1 σ2) as Hvalue.
  destruct (resourceOutputs logicalResourceName (Properties item) σ1)
    as [[[attrs1 err1]| |] σ1'];
    destruct (resourceOutputs logicalResourceName (Properties item) σ2)
      as [[[attrs2 err2]| |] σ2']; cbn [fst] in *; congruence.
Qed.

(** X9: after a merge into allocated destination collections, the
    renderer returns for every logical name what it returned before the
    merge: on the destination if the destination had the name, on the
    source otherwise.  A merged resource keeps its discovery document, and
    a collision leaves the destination's document as it was. *)
Theorem safeMergeTemplates_preserves_discovery (order : RangeOrder) src dst σ
    (logicalResourceName : string) :
  allocated dst →
  (discoveryResourceInfoForDependency dst logicalResourceName
     (safeMergeTemplates order src dst σ).2).1
  = match resourcesOf σ dst !! logicalResourceName with
    | Some _ => (discoveryResourceInfoForDependency dst logicalResourceName σ).1
    | None => (discoveryResourceInfoForDependency src logicalResourceName σ).1
    end.
Proof.
  intros Halloc.
  destruct (safeMergeTemplates_allocated order src dst σ Halloc)
    as (σ' & Hrun & HR & _).
  rewrite Hrun. cbn [snd].
  destruct (resourcesOf σ dst !! logicalResourceName) as [item|] eqn:Hdst;
    apply discovery_value; rewrite HR.
  - rewrite Hdst. by apply lookup_union_Some_l.
  - by apply lookup_union_r.
Qed.

(** X10: the renderer writes to no map.  The only state it changes is
    the logger, which receives one warning when the resource under the
    name is of a type the resolver does not know, and nothing otherwise;
    and whenever the renderer returns, the error is nil and there is a
    document exactly when the template has the name. *)
Theorem discovery_writes_no_map cfTemplate (logicalResourceName : string) σ :
  (discoveryResourceInfoForDependency cfTemplate logicalResourceName σ).2
  = match Properties <$> resourcesOf σ cfTemplate !! logicalResourceName with
    | Some (OtherResource goType _) =>
        withMaps σ (resourceMaps σ) (mappingMaps σ) (outputMaps σ)
          [unknownKindEntry goType]
    | _ => σ
    end
  ∧ match (discoveryResourceInfoForDependency cfTemplate logicalResourceName σ).1 with
    | Ret (document, err) =>
        err = None
        ∧ (document = None
           ↔ resourcesOf σ cfTemplate !! logicalResourceName = None)
    | Panic _ => True
    | Exit _ => True
    end.
Proof.
  rewrite discovery_run.
  destruct (resourcesOf σ cfTemplate !! logicalResourceName) as [item|];
    [|done].
  pose proof (resourceOutputs_state logicalResourceName (Properties item) σ)
    as Hstate.
  destruct (resourceOutputs logicalResourceName (Properties item) σ)
    as [[[attrs err]| |] σ']; cbn [fst snd fmap option_fmap option_map] in *;
    by rewrite Hstate.
Qed.
End DiscoveryFurther.

Section FactoryFurther.
Context {Mapping Output : Type}.
Context (NewResourceByType : string → option ResourceProperties).
Implicit Types (σ : @State Mapping Output).

(** X11: the factory never returns a non-nil error.  When it returns, the
    value is the registry's property object, the error is nil and nothing
    has changed; otherwise the registry does not know the type and the
    process has ended with status 1. *)
Theorem newCloudFormationResource_never_returns_error (resourceType : string) σ :
  match newCloudFormationResource NewResourceByType resourceType σ with
  | (Ret (resProps, err), σ') =>
      err = None ∧ is_Some resProps
      ∧ resProps = NewResourceByType resourceType ∧ σ' = σ
  | (Exit code, _) => code = 1%Z ∧ NewResourceByType resourceType = None
  | (Panic _, _) => False
  end.
Proof.
  unfold newCloudFormationResource.
  destruct (NewResourceByType resourceType) as [resProps|] eqn:Hregistry;
    cbn; [|done].
  repeat split; eauto.
Qed.
End FactoryFurther.

(** ** Properties of the mutation helpers *)

Lemma safeAppendDependency_one (resource : Resource) (dependencyName : string) :
  DependsOn (safeAppendDependency resource dependencyName)
  = Some (default [] (DependsOn resource) ++ [dependencyName])
  ∧ Properties (safeAppendDependency resource dependencyName)
    = Properties resource.
Proof. by destruct resource as [properties [dependencies|]]. Qed.

(** X12: adding dependencies one after the other leaves the resource with
    its former dependencies followed by the added names, in the order of
    the calls and with every repetition kept; a nil list counts as empty,
    and the properties of the resource are untouched. *)
Theorem safeAppendDependency_appends_in_order (resource : Resource)
    (dependencyName : string) (more : list string) :
  DependsOn (foldl safeAppendDependency resource (dependencyName :: more))
  = Some (default [] (DependsOn resource) ++ dependencyName :: more)
  ∧ Properties (foldl safeAppendDependency resource (dependencyName :: more))
    = Properties resource.
Proof.
  revert resource dependencyName.
  induction more as [|next more IH]; intros resource dependencyName.
  - apply safeAppendDependency_one.
  - change (foldl safeAppendDependency resource (dependencyName :: next :: more))
      with (foldl safeAppendDependency
              (safeAppendDependency resource dependencyName) (next :: more)).
    destruct (IH (safeAppendDependency resource dependencyName) next)
      as [Hdeps Hprops].
    destruct (safeAppendDependency_one resource dependencyName) as [Hone Hsame].
    rewrite Hdeps, Hprops, Hone, Hsame. split; [|done].
    simpl. by rewrite <- app_assoc.
Qed.

Section MetadataProperties.
Context {V : Type}.
Implicit Types (h : gmap positive (gmap string V)) (Metadata : mapref).

Lemma make_fresh h :
  ∃ l, make h = (Some l, <[l := ∅]> h) ∧ l ∉ dom h.
Proof. exists (fresh (dom h)). split; [done|]. apply is_fresh. Qed.

(** The helper on a field that is nil or not. *)
Lemma safeMetadataInsert_run Metadata (key : string) (value : V) h :
  ∃ l,
    safeMetadataInsert Metadata key value h
    = (Ret (Some l), <[l := <[key := value]> (deref h Metadata)]> h)
    ∧ match Metadata with
      | Some l0 => l = l0
      | None => l ∉ dom h
      end.
Proof.
  destruct Metadata as [l0|].
  - by exists l0.
  - destruct (make_fresh h) as (l & Hmake & Hfresh).
    exists l. split; [|done].
    unfold safeMetadataInsert. rewrite Hmake. cbn [assign deref].
    by rewrite lookup_insert_eq, insert_insert_eq.
Qed.

(** X13: the metadata helper never panics.  It returns a non-nil map that
    holds what the field held before (nothing, if it was nil) with the key
    set to the value; the map is the one the field referred to when it was
    not nil, so every holder of that map sees the entry, and a map object
    that did not exist before when it was nil; no other map object is
    written. *)
Theorem safeMetadataInsert_inserts Metadata (key : string) (value : V) h :
  ∃ l h',
    safeMetadataInsert Metadata key value h = (Ret (Some l), h')
    ∧ deref h' (Some l) = <[key := value]> (deref h Metadata)
    ∧ match Metadata with
      | Some l0 => l = l0
      | None => l ∉ dom h
      end
    ∧ delete l h' = delete l h.
Proof.
  destruct (safeMetadataInsert_run Metadata key value h) as (l & Hrun & Hl).
  exists l, (<[l := <[key := value]> (deref h Metadata)]> h).
  split; [exact Hrun|]. split; [|split; [exact Hl|]].
  - cbn [deref]. by rewrite lookup_insert_eq.
  - apply delete_insert_eq.
Qed.

(** X14: a second insert goes to the map the first one returned, without
    making another; under the same key the second value replaces the
    first, so the map holds what a single insert of the second value would
    have left. *)
Theorem safeMetadataInsert_overwrites Metadata (key : string) (first second : V) h :
  ∃ l h1 h2,
    safeMetadataInsert Metadata key first h = (Ret (Some l), h1)
    ∧ safeMetadataInsert (Some l) key second h1 = (Ret (Some l), h2)
    ∧ deref h2 (Some l) = <[key := second]> (deref h Metadata)
    ∧ dom h2 = dom h1.
Proof.
  destruct (safeMetadataInsert_run Metadata key first h) as (l & Hrun1 & _).
  destruct (safeMetadataInsert_run (Some l) key second
              (<[l := <[key := first]> (deref h Metadata)]> h))
    as (l' & Hrun2 & ->).
  eexists l, _, _. split; [exact Hrun1|]. split; [exact Hrun2|].
  cbn [deref]. rewrite !lookup_insert_eq. simpl.
  split; [apply insert_insert_eq|].
  rewrite !dom_insert_L. by rewrite (assoc_L (∪)), (idemp_L (∪)).
Qed.
End MetadataProperties.

(** ** The further statements at concrete templates *)

(** Merging [fragment] into [stack] leaves the maps of [fragment] alone. *)
Lemma safeMergeTemplates_frame_witness :
  deref (resourceMaps (safeMergeTemplates ascending fragment stack twoTemplates).2)
    (Resources fragment)
  = deref (resourceMaps twoTemplates) (Resources fragment)
  ∧ deref (mappingMaps (safeMergeTemplates ascending fragment stack twoTemplates).2)
      (Mappings fragment)
    = deref (mappingMaps twoTemplates) (Mappings fragment)
  ∧ deref (outputMaps (safeMergeTemplates ascending fragment stack twoTemplates).2)
      (Outputs fragment)
    = deref (outputMaps twoTemplates) (Outputs fragment).
Proof.
  apply (safeMergeTemplates_frame ascending fragment stack twoTemplates
           (Resources fragment) (Mappings fragment) (Outputs fragment));
    vm_compute; discriminate.
Defined.

(** Merging [fragment] into [stack] a second time fails again and changes
    no map. *)
Lemma safeMergeTemplates_again_witness :
  ∃ e2 σ2,
    safeMergeTemplates descending fragment stack
      (safeMergeTemplates ascending fragment stack twoTemplates).2
    = (Ret e2, σ2)
    ∧ resourceMaps σ2
      = resourceMaps (safeMergeTemplates ascending fragment stack twoTemplates).2.
Proof.
  destruct (safeMergeTemplates_again ascending descending fragment stack
              twoTemplates
              (safeMergeTemplates ascending fragment stack twoTemplates).2
              (Some "Template merge failed"))
    as (e2 & σ2 & Hrun & HR & _).
  { vm_compute. reflexivity. }
  exists e2, σ2. split; [exact Hrun|exact HR].
Defined.

(** Merging the zero template, which has no entry, into [stack]. *)
Lemma safeMergeTemplates_empty_source_witness :
  safeMergeTemplates ascending zeroTemplate stack twoTemplates
  = (Ret None, twoTemplates).
Proof.
  apply safeMergeTemplates_empty_source; reflexivity.
Defined.

(** Merging [fragment] into [stack] in either order of enumeration. *)
Lemma safeMergeTemplates_order_independent_witness :
  ∃ e σ1 σ2,
    safeMergeTemplates ascending fragment stack twoTemplates = (Ret e, σ1)
    ∧ safeMergeTemplates descending fragment stack twoTemplates = (Ret e, σ2)
    ∧ logged σ1 ≡ₚ logged σ2.
Proof.
  destruct (safeMergeTemplates_order_independent ascending descending fragment
              stack twoTemplates)
    as (e & σ1 & σ2 & Hrun1 & Hrun2 & _ & _ & _ & Hlog).
  { unfold allocated, stack. cbn. eauto. }
  exists e, σ1, σ2. split; [exact Hrun1|]. split; [exact Hrun2|exact Hlog].
Defined.

(** The failing merge of [fragment] into [stack] reports two collisions. *)
Lemma safeMergeTemplates_reports_each_once_witness :
  ∃ lines,
    logged (safeMergeTemplates ascending fragment stack twoTemplates).2
    = logged twoTemplates
      ++ errorEntry "Failed to update template. The following collisions were found:"
         :: lines
    ∧ NoDup lines.
Proof.
  destruct (safeMergeTemplates_reports_each_once ascending fragment stack
              twoTemplates
              (safeMergeTemplates ascending fragment stack twoTemplates).2
              "Template merge failed")
    as (lines & Hlog & Hnodup & _).
  { unfold allocated, stack. cbn. eauto. }
  { vm_compute. reflexivity. }
  exists lines. split; [exact Hlog|exact Hnodup].
Defined.

(** After merging [fragment] into [stack], the bucket ["B"] has in [stack]
    the document it had in [fragment]. *)
Lemma safeMergeTemplates_preserves_discovery_witness :
  (discoveryResourceInfoForDependency stack "B"
     (safeMergeTemplates ascending fragment stack twoTemplates).2).1
  = (discoveryResourceInfoForDependency fragment "B" twoTemplates).1.
Proof.
  apply (safeMergeTemplates_preserves_discovery ascending fragment stack
           twoTemplates "B").
  unfold allocated, stack. cbn. eauto.
Defined.
